(** * Tradebotpro: the mock signal generator of [routes.py]

    A shallow embedding of [generate_mock_signals] and of its HTTP handler
    [get_trading_signals], and the properties of the generated signals.

    Python's [float] is IEEE 754 binary64: it is modelled by Rocq's primitive
    floats, whose operations are the correctly rounded binary64 ones.  Python
    dictionaries are association lists in insertion order, exceptions are an
    error type, and the global random generator is an explicit state that is
    threaded through the draws. *)

From Stdlib Require Import ZArith Lia List String Ascii Bool Floats DecimalString.
Import ListNotations.

Set Warnings "-inexact-float,-register-all".

(** ** Rounding to nearest, ties to even, on integers *)

Module Rounding.

(** [rne_div a b] is the integer nearest to [a / b], ties going to the even
    one ([b] positive, [a] not negative). *)
Definition rne_div (a b : Z) : Z :=
  let q := (a / b)%Z in
  let r := (a mod b)%Z in
  match (2 * r ?= b)%Z with
  | Lt => q
  | Gt => (q + 1)%Z
  | Eq => if Z.even q then q else (q + 1)%Z
  end.

(** Number of binary digits of a non-negative integer. *)
Definition digits (n : Z) : Z :=
  match n with
  | Zpos p => Z.log2 n + 1
  | _ => 0
  end%Z.

(** A finite binary64 number is a multiple [v * 2^-1074] of the smallest
    subnormal.  [RN a b] is the binary64 number (in that unit) nearest to
    [a / b], ties to even: at most 53 significant bits are kept. *)
Definition RN (a b : Z) : Z :=
  let k := Z.max 0 (digits (a / b) - 53) in
  (2 ^ k * rne_div a (b * 2 ^ k))%Z.

(** Rounding to nearest of a signed value. *)
Definition RNs (z : Z) : Z := (Z.sgn z * RN (Z.abs z) 1)%Z.

(** The shape of a rounded value: at most 53 significant bits. *)
Definition representable (v : Z) : Prop :=
  exists k r, (v = 2 ^ k * r /\ 0 <= k /\ 0 <= r <= 2 ^ 53 /\ (k = 0 \/ 2 ^ 52 <= r))%Z.

(** The value of [round(x, ndigits)] as a function of the value of [x], both
    in units of [2^-unit]: the nearest multiple of [10^-ndigits], then the
    nearest number with 53 significant bits. *)
Definition round_val_at (unit : Z) (ndigits : N) (v : Z) : Z :=
  RN (rne_div (v * 10 ^ Z.of_N ndigits) (2 ^ unit) * 2 ^ unit) (10 ^ Z.of_N ndigits).

(** The number of bits of the rounded decimal: with 53 bits or more, the
    rounding to binary64 does not depend on the unit. *)
Definition round_digits (unit : Z) (ndigits : N) (v : Z) : Z :=
  digits (rne_div (v * 10 ^ Z.of_N ndigits) (2 ^ unit) * 2 ^ unit / 10 ^ Z.of_N ndigits).

(** The value of the float product, for a factor of value [c]. *)
Definition mul_val_at (unit : Z) (c v : Z) : Z := RN (v * c) (2 ^ unit).

(** In units of [2^-1074], the unit of binary64. *)
Definition round_val : N -> Z -> Z := round_val_at 1074.
Definition mul_val : Z -> Z -> Z := mul_val_at 1074.

(** A fact set aside: the decision procedures for arithmetic do not look
    into it. *)
Definition sealed (P : Prop) : Prop := P.

(** [covered f g a hi] checks [g v < f v] for every [v] between [a] and [hi],
    for monotone [f] and [g]: the interval is cut in pieces [a, b] on which
    [g b < f a]. *)
Fixpoint covered (fuel : nat) (f g : Z -> Z) (a hi : Z) : bool :=
  match fuel with
  | O => false
  | S k =>
      let b := (a + a / 64 + 1)%Z in
      if (hi <=? b)%Z then (g hi <? f a)%Z
      else ((g b <? f a)%Z && covered k f g b hi)%bool
  end.

End Rounding.

(** ** Python exceptions *)

Module Py.

(** The exceptions the modelled code can raise; all of them are subclasses of
    Python's [Exception]. *)
Inductive exn : Type :=
| ZeroDivisionError
| ValueError
| OverflowError
| IndexError
| KeyError (key : string).

(** The outcome of a computation that may raise. *)
Definition result (A : Type) : Type := (exn + A)%type.

End Py.

(** ** Python's float operations used by the source *)

Module PyFloat.
Import Rounding Py.

(** The value of a finite binary64 number in units of [2^-1074]. *)
Definition SFval (x : spec_float) : Z :=
  match x with
  | S754_finite s m e => cond_Zopp s (Zpos m * 2 ^ (e + 1074))
  | _ => 0
  end%Z.

(** The binary64 number of a given value (in units of [2^-1074]) that is
    representable: it is written with the 53-bit mantissa of the format. *)
Definition SF_of_val (s : bool) (v : Z) : spec_float :=
  match v with
  | Zpos p =>
      let k := Z.max 0 (digits v - 53) in
      match (v / 2 ^ k)%Z with
      | Zpos m =>
          if (k - 1074 <=? emax - prec)%Z then S754_finite s m (k - 1074)
          else S754_infinity s
      | _ => S754_zero s
      end
  | _ => S754_zero s
  end.

(** [float(n)] for a Python int: the nearest binary64 number. *)
Definition float_of_int (n : Z) : float :=
  SF2Prim (binary_normalize prec emax n 0 false).

(** Zeros and finite numbers, as opposed to infinities and NaN. *)
Definition SF_is_finite (x : spec_float) : bool :=
  match x with
  | S754_finite _ _ _ | S754_zero _ => true
  | _ => false
  end.

Definition finite (x : float) : Prop := SF_is_finite (Prim2SF x) = true.

(** The value of a float in units of [2^-1074] (0 for infinities and NaN). *)
Definition fval (x : float) : Z := SFval (Prim2SF x).

(** [round(x, ndigits)] for [ndigits >= 0]: the exact value of [x] is rounded
    to [ndigits] decimal places, ties to even, and the decimal number obtained
    is converted to the nearest binary64 number.  Infinities and NaN are
    returned as they are. *)
Definition round_ndigits (x : float) (ndigits : N) : float :=
  match Prim2SF x with
  | S754_finite s m e =>
      let p := (10 ^ Z.of_N ndigits)%Z in
      let n := rne_div (Zpos m * p * 2 ^ (e + 1074)) (2 ^ 1074) in
      SF2Prim (SF_of_val s (RN (n * 2 ^ 1074) p))
  | _ => x
  end.

(** [int(x)]: truncation towards zero; NaN raises [ValueError] and an
    infinity raises [OverflowError]. *)
Definition int_of_float (x : float) : result Z :=
  match Prim2SF x with
  | S754_nan => inl ValueError
  | S754_infinity _ => inl OverflowError
  | S754_zero _ => inr 0%Z
  | S754_finite s m e => inr (cond_Zopp s (Z.shiftl (Zpos m) e))
  end.

(** [math.floor(x)], the largest integer not above [x]. *)
Definition floor_of_float (x : float) : result Z :=
  match Prim2SF x with
  | S754_nan => inl ValueError
  | S754_infinity _ => inl OverflowError
  | S754_zero _ => inr 0%Z
  | S754_finite s m e => inr (Z.shiftl (cond_Zopp s (Zpos m)) e)
  end.

(** [x / y] on floats: a zero divisor raises [ZeroDivisionError]. *)
Definition truediv (x y : float) : result float :=
  if PrimFloat.eqb y 0 then inl ZeroDivisionError else inr (x / y)%float.

(** *** [str(x)]: the shortest decimal string that reads back as [x] *)

Definition string_of_Z (n : Z) : string := NilZero.string_of_int (Z.to_int n).

Fixpoint zeros (n : nat) : string :=
  match n with
  | O => EmptyString
  | S k => String "0" (zeros k)
  end.

(** The decimal exponent [t] with [10^t <= num / den < 10^(t+1)]. *)
Fixpoint exponent_up (fuel : nat) (num den t : Z) : Z :=
  match fuel with
  | O => t
  | S k => if (num <? 10 ^ (t + 1) * den)%Z then t else exponent_up k num den (t + 1)
  end.

Fixpoint exponent_down (fuel : nat) (num den t : Z) : Z :=
  match fuel with
  | O => t
  | S k => if (den <=? 10 ^ (- t) * num)%Z then t else exponent_down k num den (t - 1)
  end.

Definition decimal_exponent (num den : Z) : Z :=
  if (den <=? num)%Z then exponent_up 400 num den 0 else exponent_down 400 num den (-1).

Fixpoint strip_zeros (fuel : nat) (d q : Z) : Z * Z :=
  match fuel with
  | O => (d, q)
  | S k => if ((d mod 10 =? 0) && (0 <? d))%Z%bool then strip_zeros k (d / 10)%Z (q + 1)%Z else (d, q)
  end.

(** The shortest digits of [m * 2^e]: the least number [p] of significant
    digits such that a [p]-digit decimal lies in the rounding interval of the
    float, and the [p]-digit decimal nearest to the float among those.  The
    result [(d, q)] stands for [d * 10^q]. *)
Fixpoint shortest_from (fuel : nat) (p : Z) (v lo hi den t : Z) (incl : bool) : Z * Z :=
  let q := (t + 1 - p)%Z in
  let sc := (if 0 <=? q then 1 else 10 ^ (- q))%Z in
  let dn := (if 0 <=? q then den * 10 ^ q else den)%Z in
  let n := (v * sc)%Z in
  let d_lo := (n / dn)%Z in
  let d_hi := (d_lo + 1)%Z in
  let inside d :=
    if incl then ((lo * sc <=? d * dn) && (d * dn <=? hi * sc))%Z%bool
    else ((lo * sc <? d * dn) && (d * dn <? hi * sc))%Z%bool in
  let dist_lo := (n - d_lo * dn)%Z in
  let dist_hi := (d_hi * dn - n)%Z in
  match fuel with
  | O => (d_lo, q)
  | S k =>
      match inside d_lo, inside d_hi with
      | true, true =>
          match (dist_lo ?= dist_hi)%Z with
          | Lt => (d_lo, q)
          | Gt => (d_hi, q)
          | Eq => if Z.even d_lo then (d_lo, q) else (d_hi, q)
          end
      | true, false => (d_lo, q)
      | false, true => (d_hi, q)
      | false, false => shortest_from k (p + 1)%Z v lo hi den t incl
      end
  end.

Definition shortest_digits (m : positive) (e : Z) : Z * Z :=
  let below := (if (Zpos m =? 2 ^ 52) && (-1074 <? e) then 1 else 2)%Z%bool in
  let sc := (if 0 <=? e - 2 then 2 ^ (e - 2) else 1)%Z in
  let den := (if 0 <=? e - 2 then 1 else 2 ^ (2 - e))%Z in
  let v := (4 * Zpos m * sc)%Z in
  let lo := ((4 * Zpos m - below) * sc)%Z in
  let hi := ((4 * Zpos m + 2) * sc)%Z in
  let t := decimal_exponent v den in
  let '(d, q) := shortest_from 17 1 v lo hi den t (Z.even (Zpos m)) in
  strip_zeros 20 d q.

(** The layout of [repr]: fixed notation when the decimal point falls within
    [-4 < decpt <= 16], exponent notation otherwise. *)
Definition format_digits (d q : Z) : string :=
  let ds := string_of_Z d in
  let nd := Z.of_nat (String.length ds) in
  let decpt := (q + nd)%Z in
  if ((decpt <=? -4) || (16 <? decpt))%Z%bool then
    let ex := (decpt - 1)%Z in
    let mant :=
      if (nd =? 1)%Z then ds
      else (String.substring 0 1 ds ++ "." ++ String.substring 1 (String.length ds - 1) ds)%string in
    let exs := string_of_Z (Z.abs ex) in
    let exs := if (Z.abs ex <? 10)%Z then ("0" ++ exs)%string else exs in
    (mant ++ "e" ++ (if (ex <? 0)%Z then "-" else "+") ++ exs)%string
  else if (decpt <=? 0)%Z then
    ("0." ++ zeros (Z.to_nat (- decpt)) ++ ds)%string
  else if (nd <=? decpt)%Z then
    (ds ++ zeros (Z.to_nat (decpt - nd)) ++ ".0")%string
  else
    (String.substring 0 (Z.to_nat decpt) ds ++ "." ++
     String.substring (Z.to_nat decpt) (String.length ds - Z.to_nat decpt) ds)%string.

Definition str_of_float (x : float) : string :=
  match Prim2SF x with
  | S754_nan => "nan"
  | S754_infinity s => if s then "-inf" else "inf"
  | S754_zero s => if s then "-0.0" else "0.0"
  | S754_finite s m e =>
      let '(d, q) := shortest_digits m e in
      ((if s then "-" else "") ++ format_digits d q)%string
  end.

(** The record reached after shifting [E] (a mantissa followed by a
    rounding bit) right by [j] positions, in the rounding of the Standard
    Library's specification of floats. *)
Definition shr_inv (r : shr_record) (E j : Z) : Prop :=
  (0 <= shr_m r /\
   2 * shr_m r + Z.b2z (shr_r r) = E / 2 ^ j /\
   shr_s r = negb (E mod 2 ^ j =? 0))%Z.

End PyFloat.

(** ** The checks behind the price brackets

    Bounds on the value of [1 + u] for a draw [u] between -0.02 and 0.02, and
    the checks, by computation, that for a base price [b] every price
    [b * (1 + u)] is strictly bracketed by its stop and target after rounding
    to four places.  The prices of the table and their factors are far from
    the subnormal numbers, so the checks compute in units of [2^-64]: a
    value [w] in that unit is [w * 2^shift] in units of [2^-1074]. *)

Module Bracket.
Import Rounding PyFloat.

Definition shift : Z := 1010.

Definition v_one : Z := fval (float_of_int 1).
Definition one_plus_lo : Z := RN (v_one + fval (- 0.02)%float) 1.
Definition one_plus_hi : Z := RN (v_one + fval 0.02%float) 1.

(** The value of a positive float in units of [2^-64], for a float that is a
    multiple of that unit. *)
Definition sval (x : float) : Z :=
  match Prim2SF x with
  | S754_finite false m e => (Zpos m * 2 ^ (e + 64))%Z
  | _ => 0%Z
  end.

Definition scaled (x : float) : bool :=
  match Prim2SF x with
  | S754_finite false m e => (0 <=? e + 64)%Z
  | _ => false
  end.

Definition s_lo : Z := RN (sval (float_of_int 1) - sval 0.02%float) 1.
Definition s_hi : Z := RN (sval (float_of_int 1) + sval 0.02%float) 1.

Definition sround : Z -> Z := round_val_at 64 4.
Definition smul : Z -> Z -> Z := mul_val_at 64.

(** A product of two values that is neither too small nor too large for the
    float product to be the rounding of the exact one, with 53 bits. *)
Definition in_range (x : Z) : bool := ((2 ^ 116 <=? x) && (x <? 2 ^ 200))%Z%bool.

(** Values between [lo] and [hi] whose rounding to four places is that of
    a normal number. *)
Definition roundable (lo hi : Z) : bool :=
  ((0 <? lo) && (hi <? 2 ^ 200) && (53 <=? round_digits 64 4 lo))%Z%bool.

Definition factor_ok (wl wh : Z) (c : float) : bool :=
  scaled c && in_range (wl * sval c) && in_range (wh * sval c)
  && roundable (smul (sval c) wl) (smul (sval c) wh).

Definition base_ok (b : float) : bool :=
  let wb := sval b in
  let wl := smul wb s_lo in
  let wh := smul wb s_hi in
  scaled b && in_range (s_lo * wb) && in_range (s_hi * wb)
  && roundable wl wh
  && forallb (factor_ok wl wh) [1.03%float; 0.94%float; 0.97%float; 1.06%float]
  && covered 16 (fun w => sround (smul (sval 1.03%float) w)) sround wl wh
  && covered 16 sround (fun w => sround (smul (sval 0.94%float) w)) wl wh
  && covered 16 sround (fun w => sround (smul (sval 0.97%float) w)) wl wh
  && covered 16 (fun w => sround (smul (sval 1.06%float) w)) sround wl wh.

End Bracket.

(** ** Python values *)

Module PyData.
Import Py PyFloat.

(** A Python number: the literals of the price table are ints and floats. *)
Inductive number : Type :=
| Int (n : Z)
| Float (x : float).

(** The float a number stands for in float arithmetic ([67000 * x] is
    [67000.0 * x]). *)
Definition as_float (a : number) : float :=
  match a with
  | Int n => float_of_int n
  | Float x => x
  end.

(** The values stored in a signal.  A dict is the list of its items in
    insertion order, as the dict literal of the source builds it. *)
Inductive value : Type :=
| VStr (s : string)
| VFloat (x : float)
| VInt (n : Z)
| VBool (b : bool)
| VDict (items : list (string * value)).

Fixpoint lookup {A : Type} (key : string) (items : list (string * A)) : option A :=
  match items with
  | [] => None
  | (k, v) :: rest => if String.eqb key k then Some v else lookup key rest
  end.

(** [d[key]] for a dict; [None] for a missing key or a value that is no dict. *)
Definition get (key : string) (d : value) : option value :=
  match d with
  | VDict items => lookup key items
  | _ => None
  end.

(** [d[k1][k2]...] *)
Fixpoint get_path (path : list string) (d : value) : option value :=
  match path with
  | [] => Some d
  | k :: rest =>
      match get k d with
      | Some v => get_path rest v
      | None => None
      end
  end.

(** [table[key]], raising [KeyError] when the key is missing. *)
Definition getitem {A : Type} (table : list (string * A)) (key : string) : result A :=
  match lookup key table with
  | Some v => inr v
  | None => inl (KeyError key)
  end.

(** [seq[k]] for a list, negative indices counting from the end. *)
Definition list_getitem {A : Type} (seq : list A) (k : Z) : result A :=
  let len := Z.of_nat (List.length seq) in
  let k' := (if k <? 0 then len + k else k)%Z in
  if (k' <? 0)%Z then inl IndexError
  else match nth_error seq (Z.to_nat k') with
       | Some x => inr x
       | None => inl IndexError
       end.

(** [str(n)] for an int. *)
Definition str_of_int (n : Z) : string := string_of_Z n.

Definition is_float (v : value) : bool :=
  match v with VFloat _ => true | _ => false end.
Definition is_int (v : value) : bool :=
  match v with VInt _ => true | _ => false end.
Definition is_str (v : value) : bool :=
  match v with VStr _ => true | _ => false end.
(** JSON numbers: Python ints and floats (a bool is not counted as one). *)
Definition is_number (v : value) : bool := is_float v || is_int v.

End PyData.

(** ** The random module *)

Module Random.
Import Py PyData.

(** The global generator of Python's [random] module, as the two draws the
    source makes of it: [uniform(a, b)], and [_randbelow(n)] on which
    [choice] is built.  [G] is the generator's internal state; a seed is an
    initial state. *)
Record source (G : Type) : Type := {
  uniform : float -> float -> G -> float * G;
  randbelow : Z -> G -> Z * G
}.
Arguments uniform {G} _ _ _ _.
Arguments randbelow {G} _ _ _.

(** Computations that draw from the generator and may raise: the state is
    kept when an exception is raised, as the global generator is. *)
Definition M (G A : Type) : Type := G -> result A * G.

Definition ret {G A} (x : A) : M G A := fun g => (inr x, g).

Definition bind {G A B} (c : M G A) (f : A -> M G B) : M G B :=
  fun g =>
    match c g with
    | (inr x, g') => f x g'
    | (inl e, g') => (inl e, g')
    end.

(** A pure step that may raise. *)
Definition lift {G A} (r : result A) : M G A := fun g => (r, g).

(** A draw. *)
Definition draw {G A} (d : G -> A * G) : M G A :=
  fun g => let (x, g') := d g in (inr x, g').

(** [random.choice(seq)] is [seq[_randbelow(len(seq))]]. *)
Definition choice {G A} (rs : source G) (seq : list A) : M G A :=
  bind (draw (randbelow rs (Z.of_nat (List.length seq)))) (fun k => lift (list_getitem seq k)).

(** What the library promises of the draws the source makes: [uniform(a, b)]
    lies between [a] and [b], and [_randbelow(n)] in [0, n). *)
Definition uniform_in_range {G} (rs : source G) (a b : float) : Prop :=
  forall g, let x := fst (uniform rs a b g) in
            PrimFloat.leb a x = true /\ PrimFloat.leb x b = true.

Definition randbelow_in_range {G} (rs : source G) (n : Z) : Prop :=
  forall g, (0 <= fst (randbelow rs n g) < n)%Z.

End Random.

Declare Scope py_scope.
Delimit Scope py_scope with py.
Notation "x <- c ;; k" := (Random.bind c (fun x => k))
  (at level 61, c at next level, right associativity) : py_scope.

(** ** [routes.py] *)

Module Routes.
Import Py PyFloat PyData Random.
Local Open Scope py_scope.
Local Open Scope string_scope.

Definition symbols : list string := ["ADA"; "BTC"; "ETH"; "SOL"; "LINK"; "AVAX"].

Definition base_prices : list (string * number) :=
  [("ADA", Float 0.55); ("BTC", Int 67000); ("ETH", Int 3400);
   ("SOL", Int 145); ("LINK", Float 13.2); ("AVAX", Float 35.5)].

(** The dict literal bound to [signal], over the local variables of the loop
    body ([share] stands for the subterm [risk_amount/500]). *)
Definition signal_dict (i : Z) (symbol action : string)
    (confidence price stop_loss take_profit : float) (leverage : Z)
    (qty risk_amount share position_value : float) : value :=
  VDict
    [("symbol", VStr symbol);
     ("action", VStr action);
     ("confidence", VFloat (round_ndigits confidence 2));
     ("entry_price", VFloat (round_ndigits price 4));
     ("stop_loss", VFloat (round_ndigits stop_loss 4));
     ("take_profit", VFloat (round_ndigits take_profit 4));
     ("leverage", VInt leverage);
     ("expected_return", VFloat 6.0);
     ("risk_reward_ratio", VFloat 2.0);
     ("time_horizon", VStr "4H");
     ("strategy_basis", VStr "Momentum Volume Analysis");
     ("is_primary_trade", VBool (i =? 0)%Z);
     ("trade_label", VStr (if (i =? 0)%Z then "YOUR TRADE" else "ALTERNATIVE"));
     ("bybit_settings", VDict
       [("symbol", VStr (symbol ++ "USDT"));
        ("side", VStr action);
        ("orderType", VStr "Market");
        ("qty", VStr (str_of_float (round_ndigits qty 4)));
        ("leverage", VStr (str_of_int leverage));
        ("stopLoss", VStr (str_of_float (round_ndigits stop_loss 4)));
        ("takeProfit", VStr (str_of_float (round_ndigits take_profit 4)));
        ("timeInForce", VStr "GTC");
        ("marginMode", VStr "isolated");
        ("risk_management", VDict
          [("risk_amount_usd", VStr (str_of_float risk_amount));
           ("risk_percentage",
              VStr (str_of_float (share * float_of_int 100) ++ "%"));
           ("position_value_usd",
              VStr (str_of_float
                      (round_ndigits (position_value * float_of_int leverage) 2)));
           ("margin_required_usd",
              VStr (str_of_float (round_ndigits position_value 2)))]);
        ("execution_notes", VDict
          [("entry_strategy", VStr "Market order for immediate execution");
           ("position_monitoring", VStr "Monitor for 4-8 hours based on momentum");
           ("stop_loss_type", VStr "Stop-market order");
           ("take_profit_type", VStr "Limit order")])])].

(** The multipliers of the stop and of the target, by direction. *)
Definition stop_loss_factor (action : string) : float :=
  if action =? "SELL" then 1.03%float else 0.97%float.

Definition take_profit_factor (action : string) : float :=
  if action =? "SELL" then 0.94%float else 1.06%float.

(** The quantity the loop body computes, for the position value of 250. *)
Definition quantity (symbol : string) (price : float) (leverage : Z) : float :=
  if symbol =? "BTC" then (250.0 / price)%float
  else if symbol =? "ETH" then (250.0 / price)%float
  else ((250.0 * float_of_int leverage) / price)%float.

(** The body of the loop after the three draws: the trading parameters and
    the signal, for the index [i] and symbol of the iteration, the perturbed
    [price], the [confidence] and the [action] drawn. *)
Definition make_signal (i : Z) (symbol : string) (price confidence : float)
    (action : string) : result value :=
  match int_of_float (confidence - float_of_int 85) with
  | inl e => inl e
  | inr k =>
  let leverage := Z.min (8 + k) 15 in
  let risk_amount := 50.0%float in
  match truediv risk_amount (float_of_int 100) with
  | inl e => inl e
  | inr ratio =>
  let position_value := (500.0 * ratio)%float in
  match (if symbol =? "BTC" then truediv position_value price
         else if symbol =? "ETH" then truediv position_value price
         else truediv (position_value * float_of_int leverage) price) with
  | inl e => inl e
  | inr qty =>
  let stop_loss := (price * stop_loss_factor action)%float in
  let take_profit := (price * take_profit_factor action)%float in
  match truediv risk_amount (float_of_int 500) with
  | inl e => inl e
  | inr share =>
  inr (signal_dict i symbol action confidence price stop_loss take_profit
         leverage qty risk_amount share position_value)
  end end end end.

Section Generator.

Context {G : Type} (rs : source G).

(** One iteration of the loop of [generate_mock_signals]: the price lookup,
    the draws in the order of the source, and the signal. *)
Definition iteration (i : Z) (symbol : string) : M G value :=
  base <- lift (getitem base_prices symbol) ;;
  u <- draw (uniform rs (- 0.02) 0.02) ;;
  let price := (as_float base * (float_of_int 1 + u))%float in
  c <- draw (uniform rs (float_of_int 85) (float_of_int 98)) ;;
  action <- (if (i =? 0)%Z then ret "SELL" else choice rs ["BUY"; "SELL"]) ;;
  lift (make_signal i symbol price c action).

(** [for i, symbol in enumerate(symbols): ...; signals.append(signal)] *)
Fixpoint for_each (i : Z) (todo : list string) (signals : list value)
  : M G (list value) :=
  match todo with
  | [] => ret signals
  | symbol :: rest =>
      signal <- iteration i symbol ;;
      for_each (i + 1) rest (signals ++ [signal])
  end.

Definition generate_mock_signals : M G (list value) :=
  for_each 0 symbols [].

(** The response built by [jsonify] and the record written by
    [logger.error]. *)
Record response : Type := { json_body : list value }.

Definition jsonify (data : list value) : response := {| json_body := data |}.

Record log_record : Type := { log_message : string; log_exception : exn }.

(** The handler of [/api/signals]: the response, the records logged and the
    state the generator is left in. *)
Definition get_trading_signals (g : G) : response * list log_record * G :=
  match generate_mock_signals g with
  | (inr signals, g') => (jsonify signals, [], g')
  | (inl e, g') =>
      (jsonify [],
       [{| log_message := "Error getting signals: "; log_exception := e |}],
       g')
  end.

(** *** The draws of a run

    The draws an iteration makes from the state [g] it starts in, and the
    state the generator has at the start of each iteration of a run. *)

Definition price_draw (g : G) : float := fst (uniform rs (- 0.02) 0.02 g).

Definition after_price (g : G) : G := snd (uniform rs (- 0.02) 0.02 g).

Definition confidence_draw (g : G) : float :=
  fst (uniform rs (float_of_int 85) (float_of_int 98) (after_price g)).

Definition after_confidence (g : G) : G :=
  snd (uniform rs (float_of_int 85) (float_of_int 98) (after_price g)).

Definition choice_draw (g : G) : Z := fst (randbelow rs 2 (after_confidence g)).

Definition after_iteration (i : Z) (g : G) : G :=
  if (i =? 0)%Z then after_confidence g
  else snd (randbelow rs 2 (after_confidence g)).

Fixpoint state_at (n : nat) (g0 : G) : G :=
  match n with
  | O => g0
  | S k => after_iteration (Z.of_nat k) (state_at k g0)
  end.

(** The price an iteration computes for its symbol. *)
Definition price_of (base : number) (g : G) : float :=
  (as_float base * (float_of_int 1 + price_draw g))%float.

(** The action of iteration [i]: forced for the first one, chosen by the
    draw for the others. *)
Definition drawn_action (i : Z) (g : G) : string :=
  if (i =? 0)%Z then "SELL"
  else nth (Z.to_nat (choice_draw g)) ["BUY"; "SELL"] "SELL".

(** [produced i symbol base g v]: the iteration [i], started in the state
    [g] for [symbol] of base price [base], computes the leverage from the
    truncated [k] and emits the signal [v]. *)
Definition produced (i : Z) (symbol : string) (base : number) (g : G)
    (v : value) : Prop :=
  exists k,
    int_of_float (confidence_draw g - float_of_int 85) = inr k /\
    let price := price_of base g in
    let leverage := Z.min (8 + k) 15 in
    let action := drawn_action i g in
    finite price /\ (0 < fval price)%Z /\
    v = signal_dict i symbol action (confidence_draw g) price
          (price * stop_loss_factor action) (price * take_profit_factor action)
          leverage (quantity symbol price leverage) 50.0 0.1 250.0.

(** The signals of a run from the seed [g0], one per entry of the table. *)
Fixpoint produced_all (n : nat) (todo : list (string * number)) (g0 : G)
    (signals : list value) : Prop :=
  match todo, signals with
  | [], [] => True
  | (symbol, base) :: todo', v :: signals' =>
      produced (Z.of_nat n) symbol base (state_at n g0) v /\
      produced_all (S n) todo' g0 signals'
  | _, _ => False
  end.

(** The entry prices of a run from the seed [g0]: the price of each
    iteration, rounded to four places. *)
Fixpoint entry_prices (n : nat) (todo : list (string * number)) (g0 : G)
    : list (option value) :=
  match todo with
  | [] => []
  | (_, base) :: todo' =>
      Some (VFloat (round_ndigits (price_of base (state_at n g0)) 4))
      :: entry_prices (S n) todo' g0
  end.

(** What the library promises of the three draws of the source. *)
Record well_behaved : Prop := {
  price_in_range : uniform_in_range rs (- 0.02) 0.02;
  confidence_in_range : uniform_in_range rs (float_of_int 85) (float_of_int 98);
  choice_in_range : randbelow_in_range rs 2
}.

End Generator.

(** The entries of the price table that are found under their symbol and
    pass the checks of the brackets. *)
Definition table_ok (todo : list (string * number)) : Prop :=
  Forall (fun sb => getitem base_prices (fst sb) = inr (snd sb) /\
                    Bracket.base_ok (as_float (snd sb)) = true) todo.

(** *** A random source for tests

    A generator whose state is the tape of the raw draws to come, three bits
    each: [random()] is [k / 8], [uniform(a, b)] is [a + (b - a) * random()]
    as in the library, and [_randbelow(n)] is [k mod n]. *)
Definition tape : source (list Z) := {|
  uniform a b g := ((a + (b - a) * (float_of_int (hd 0%Z g mod 8) / 8))%float, tl g);
  randbelow n g := ((hd 0 g mod n)%Z, tl g)
|}.

(** A generator that breaks the promise of [uniform]: every draw is [-1]. *)
Definition broken : source unit := {|
  uniform a b g := ((- 1)%float, g);
  randbelow n g := (0%Z, g)
|}.

(** A seed of the test source: the raw draws of the six iterations (price,
    confidence and, after the first iteration, the choice). *)
Definition seed_a : list Z :=
  [4; 1;  4; 7; 1;  0; 0; 0;  7; 7; 1;  3; 3; 0;  5; 5; 1]%Z.

(** The same draws but for the confidence of the first iteration. *)
Definition seed_b : list Z :=
  [4; 2;  4; 7; 1;  0; 0; 0;  7; 7; 1;  3; 3; 0;  5; 5; 1]%Z.

(** The keys of a dict, in insertion order. *)
Definition keys (v : value) : list string :=
  match v with
  | VDict items => map fst items
  | _ => []
  end.

(** A source that counts the draws made of [rs]: the calls of
    [random.uniform] and those of [_randbelow], which [random.choice] calls
    once. *)
Definition counted {G : Type} (rs : source G) : source (G * (nat * nat)) := {|
  uniform a b s :=
    (fst (uniform rs a b (fst s)),
     (snd (uniform rs a b (fst s)), (S (fst (snd s)), snd (snd s))));
  randbelow n s :=
    (fst (randbelow rs n (fst s)),
     (snd (randbelow rs n (fst s)), (fst (snd s), S (snd (snd s)))))
|}.

(** The dict of the execution notes, the same in every signal. *)
Definition execution_notes : value :=
  VDict
    [("entry_strategy", VStr "Market order for immediate execution");
     ("position_monitoring", VStr "Monitor for 4-8 hours based on momentum");
     ("stop_loss_type", VStr "Stop-market order");
     ("take_profit_type", VStr "Limit order")].

End Routes.

(** * Properties

    ** Rounding and binary64

    The operations of binary64 in terms of the rounding [RN] of exact
    values: the sum, the difference and the product of two floats, the
    comparisons, and Python's [round], [int] and [math.floor]. *)

Module FloatFacts.
Import Rounding PyFloat Py Bracket.
Local Open Scope Z_scope.

Ltac seal H := match type of H with ?P => change (sealed P) in H end.
Ltac unseal H := unfold sealed in H.

Lemma rne_div_bounds a b : 0 < b -> a / b <= rne_div a b <= a / b + 1.
Proof.
  intros Hb. unfold rne_div.
  destruct (2 * (a mod b) ?= b); try destruct (Z.even (a / b)); lia.
Qed.

Lemma rne_div_exact a b : 0 < b -> a mod b = 0 -> rne_div a b = a / b.
Proof.
  intros Hb H. unfold rne_div. rewrite H.
  destruct (Z.compare_spec (2 * 0) b); lia.
Qed.

Lemma rne_div_mono a1 a2 b : 0 < b -> a1 <= a2 -> rne_div a1 b <= rne_div a2 b.
Proof.
  intros Hb Ha.
  assert (Hq : a1 / b <= a2 / b) by (apply Z.div_le_mono; lia).
  destruct (Z.eq_dec (a1 / b) (a2 / b)) as [E|N].
  - assert (Hr : a1 mod b <= a2 mod b).
    { pose proof (Z.div_mod a1 b). pose proof (Z.div_mod a2 b). rewrite E in *. lia. }
    unfold rne_div. rewrite E.
    destruct (Z.compare_spec (2 * (a1 mod b)) b), (Z.compare_spec (2 * (a2 mod b)) b);
      destruct (Z.even (a2 / b)); lia.
  - pose proof (rne_div_bounds a1 b Hb). pose proof (rne_div_bounds a2 b Hb). lia.
Qed.

Lemma rne_div_scale a b c : 0 < b -> 0 < c -> rne_div (a * c) (b * c) = rne_div a b.
Proof.
  intros Hb Hc. unfold rne_div.
  rewrite Z.div_mul_cancel_r by lia.
  rewrite Z.mul_mod_distr_r by lia.
  replace (2 * (a mod b * c) ?= b * c) with (2 * (a mod b) ?= b); [reflexivity|].
  destruct (Z.compare_spec (2 * (a mod b)) b), (Z.compare_spec (2 * (a mod b * c)) (b * c));
    try reflexivity; nia.
Qed.

Lemma rne_div_ge a b n : 0 < b -> b * n <= a -> n <= rne_div a b.
Proof.
  intros Hb H. pose proof (rne_div_bounds a b Hb).
  assert (n <= a / b) by (apply Z.div_le_lower_bound; lia). lia.
Qed.

Lemma rne_div_le a b n : 0 < b -> a < b * n -> rne_div a b <= n.
Proof.
  intros Hb H. pose proof (rne_div_bounds a b Hb).
  assert (a / b < n) by (apply Z.div_lt_upper_bound; lia). lia.
Qed.

Lemma digits_pos_spec n : 0 < n -> 2 ^ (digits n - 1) <= n < 2 ^ digits n.
Proof.
  intros H. destruct n; try lia. unfold digits.
  pose proof (Z.log2_spec (Zpos p) H).
  replace (Z.log2 (Z.pos p) + 1 - 1) with (Z.log2 (Z.pos p)) by lia.
  replace (Z.log2 (Z.pos p) + 1) with (Z.succ (Z.log2 (Z.pos p))) by lia. lia.
Qed.

Lemma digits_nonneg n : 0 <= digits n.
Proof. destruct n; unfold digits; try lia. pose proof (Z.log2_nonneg (Z.pos p)). lia. Qed.

Lemma digits_unique n d : 0 < n -> 2 ^ (d - 1) <= n < 2 ^ d -> digits n = d.
Proof.
  intros Hn H. destruct n; try lia. unfold digits.
  assert (0 <= d - 1).
  { destruct (Z_lt_le_dec (d - 1) 0); [|lia].
    assert (d <= 0) by lia.
    assert (2 ^ d <= 2 ^ 0) by (destruct (Z.eq_dec d 0); [subst; lia|rewrite Z.pow_neg_r by lia; simpl; lia]).
    simpl in *. lia. }
  assert (Z.log2 (Z.pos p) = d - 1); [|lia].
  apply Z.log2_unique; [lia|]. replace (Z.succ (d - 1)) with d by lia. lia.
Qed.

Lemma digits_mono a b : 0 <= a -> a <= b -> digits a <= digits b.
Proof.
  intros Ha Hab. destruct a; try lia; destruct b; try lia.
  - unfold digits. pose proof (Z.log2_nonneg (Z.pos p)). lia.
  - unfold digits. pose proof (Z.log2_le_mono (Z.pos p) (Z.pos p0) Hab). lia.
Qed.

Lemma digits_lt_pow n d : 0 <= d -> 0 <= n < 2 ^ d -> digits n <= d.
Proof.
  intros Hd [H0 H]. destruct (Z.eq_dec n 0); [subst; simpl; lia|].
  destruct (Z_le_gt_dec (digits n) d); [lia|].
  pose proof (digits_pos_spec n ltac:(lia)).
  assert (2 ^ d <= 2 ^ (digits n - 1)) by (apply Z.pow_le_mono_r; lia). lia.
Qed.

Lemma digits_ge_pow n d : 0 <= d -> 2 ^ d <= n -> d + 1 <= digits n.
Proof.
  intros Hd H. assert (0 < n) by (pose proof (Z.pow_pos_nonneg 2 d); lia).
  destruct (Z_le_gt_dec (d + 1) (digits n)); [lia|].
  pose proof (digits_pos_spec n ltac:(lia)).
  assert (2 ^ digits n <= 2 ^ d) by (apply Z.pow_le_mono_r; lia). lia.
Qed.

Lemma digits_mul_pow n k : 0 < n -> 0 <= k -> digits (n * 2 ^ k) = digits n + k.
Proof.
  intros Hn Hk. pose proof (digits_pos_spec n Hn) as [H1 H2].
  pose proof (digits_nonneg n).
  assert (1 <= digits n).
  { destruct n; try lia. unfold digits. pose proof (Z.log2_nonneg (Z.pos p)). lia. }
  apply digits_unique.
  - pose proof (Z.pow_pos_nonneg 2 k). nia.
  - replace (digits n + k - 1) with (digits n - 1 + k) by lia.
    rewrite !Z.pow_add_r by lia. pose proof (Z.pow_pos_nonneg 2 k). nia.
Qed.

Lemma RN_mono a1 a2 b : 0 < b -> 0 <= a1 -> a1 <= a2 -> RN a1 b <= RN a2 b.
Proof.
  intros Hb H0 Ha. unfold RN.
  assert (Hq : a1 / b <= a2 / b) by (apply Z.div_le_mono; lia).
  assert (Hq0 : 0 <= a1 / b) by (apply Z.div_pos; lia).
  pose proof (digits_mono _ _ Hq0 Hq) as Hd.
  set (k1 := Z.max 0 (digits (a1 / b) - 53)).
  set (k2 := Z.max 0 (digits (a2 / b) - 53)).
  assert (Hk : k1 <= k2) by lia.
  assert (Hk1 : 0 <= k1) by lia.
  destruct (Z.eq_dec k1 k2) as [E|N].
  - rewrite E. apply Z.mul_le_mono_nonneg_l; [apply Z.pow_nonneg; lia|].
    apply rne_div_mono; [|lia]. pose proof (Z.pow_pos_nonneg 2 k2). nia.
  - assert (Hk2 : k2 = digits (a2 / b) - 53) by lia.
    assert (Hpos2 : 0 < a2 / b).
    { destruct (Z.eq_dec (a2 / b) 0) as [Z0|]; [|lia]. rewrite Z0 in Hk2. simpl in Hk2. lia. }
    pose proof (digits_pos_spec _ Hpos2) as [L2 _].
    replace (digits (a2 / b) - 1) with (k2 + 52) in L2 by lia.
    assert (U1 : a1 / b < 2 ^ (k1 + 53)).
    { destruct (Z.eq_dec (a1 / b) 0) as [Z0|].
      - rewrite Z0. apply Z.pow_pos_nonneg; lia.
      - pose proof (digits_pos_spec (a1 / b) ltac:(lia)) as [_ U].
        eapply Z.lt_le_trans; [exact U|]. apply Z.pow_le_mono_r; lia. }
    pose proof (Z.pow_pos_nonneg 2 k1 ltac:(lia)) as P1.
    pose proof (Z.pow_pos_nonneg 2 k2 ltac:(lia)) as P2.
    assert (R1 : rne_div a1 (b * 2 ^ k1) <= 2 ^ 53).
    { apply rne_div_le; [nia|].
      assert (a1 < b * 2 ^ (k1 + 53)).
      { pose proof (Z.mul_succ_div_gt a1 b Hb).
        assert (Z.succ (a1 / b) <= 2 ^ (k1 + 53)) by lia. nia. }
      rewrite Z.pow_add_r in H by lia. lia. }
    assert (R2 : 2 ^ 52 <= rne_div a2 (b * 2 ^ k2)).
    { apply rne_div_ge; [nia|].
      pose proof (Z.mul_div_le a2 b Hb).
      rewrite Z.pow_add_r in L2 by lia. nia. }
    assert (2 ^ k1 * 2 ^ 53 <= 2 ^ k2 * 2 ^ 52).
    { replace k2 with (k1 + 1 + (k2 - k1 - 1)) by lia.
      rewrite !Z.pow_add_r by lia.
      pose proof (Z.pow_pos_nonneg 2 (k2 - k1 - 1) ltac:(lia)).
      change (2 ^ 53) with (2 * 2 ^ 52). change (2 ^ 1) with 2. nia. }
    nia.
Qed.

Lemma digits2_pos_digits p : Zpos (digits2_pos p) = digits (Zpos p).
Proof.
  unfold digits.
  induction p as [p IH|p IH|].
  - simpl digits2_pos. rewrite Pos2Z.inj_succ, IH.
    change (Z.pos p~1) with (2 * Z.pos p + 1).
    rewrite Z.log2_succ_double by lia. lia.
  - simpl digits2_pos. rewrite Pos2Z.inj_succ, IH.
    change (Z.pos p~0) with (2 * Z.pos p).
    rewrite Z.log2_double by lia. lia.
  - reflexivity.
Qed.

Lemma Zdigits2_digits m : 0 <= m -> Zdigits2 m = digits m.
Proof.
  destruct m; intros H; try lia; [reflexivity|].
  simpl Zdigits2. apply digits2_pos_digits.
Qed.

Lemma shr_1_inv r E j :
  0 <= j -> shr_inv r E j -> shr_inv (shr_1 r) E (j + 1).
Proof.
  intros Hj (Hm & Hq & Hs).
  assert (P : 0 < 2 ^ j) by (apply Z.pow_pos_nonneg; lia).
  assert (Hdiv : E / 2 ^ (j + 1) = E / 2 ^ j / 2).
  { rewrite Z.pow_add_r by lia. rewrite Z.div_div by lia. reflexivity. }
  assert (Hmod : E mod 2 ^ (j + 1) = E mod 2 ^ j + 2 ^ j * ((E / 2 ^ j) mod 2)).
  { rewrite Z.pow_add_r by lia. change (2 ^ 1) with 2. apply Z.rem_mul_r; lia. }
  assert (Hs' : (shr_r r || shr_s r)%bool = negb (E mod 2 ^ (j + 1) =? 0)).
  { rewrite Hmod, Hs.
    pose proof (Z.mod_pos_bound E (2 ^ j) P).
    assert (Hr2 : (E / 2 ^ j) mod 2 = Z.b2z (shr_r r)).
    { rewrite <- Hq.
      replace (2 * shr_m r + Z.b2z (shr_r r)) with (Z.b2z (shr_r r) + shr_m r * 2) by lia.
      rewrite Z.mod_add by lia. destruct (shr_r r); reflexivity. }
    rewrite Hr2.
    destruct (shr_r r); simpl Z.b2z; simpl orb.
    - destruct (Z.eqb_spec (E mod 2 ^ j + 2 ^ j * 1) 0); [lia|reflexivity].
    - replace (E mod 2 ^ j + 2 ^ j * 0) with (E mod 2 ^ j) by lia. reflexivity. }
  destruct r as [m r s]. cbn [shr_m shr_r shr_s] in *.
  assert (Hhalf : E / 2 ^ j / 2 = m).
  { rewrite <- Hq.
    replace (2 * m + Z.b2z r) with (Z.b2z r + m * 2) by lia.
    rewrite Z.div_add by lia. destruct r; simpl; lia. }
  destruct m as [|[p|p|]|p]; try lia; unfold shr_inv;
    cbn [shr_1 shr_m shr_r shr_s]; rewrite Hdiv, Hhalf;
    (split; [lia|split; [cbn [Z.b2z]; lia|exact Hs']]).
Qed.

Lemma iter_pos_shr_1_inv n : forall r E j,
  0 <= j -> shr_inv r E j -> shr_inv (iter_pos shr_1 n r) E (j + Zpos n).
Proof.
  induction n as [n IH|n IH|]; intros r E j Hj H; simpl iter_pos.
  - replace (j + Z.pos n~1) with (j + 1 + Z.pos n + Z.pos n) by lia.
    apply IH; [lia|]. apply IH; [lia|]. apply shr_1_inv; assumption.
  - replace (j + Z.pos n~0) with (j + Z.pos n + Z.pos n) by lia.
    apply IH; [lia|]. apply IH; assumption.
  - apply shr_1_inv; assumption.
Qed.

Lemma shr_inv_exact m : 0 <= m -> shr_inv (shr_record_of_loc m loc_Exact) (2 * m) 0.
Proof.
  intros H. unfold shr_inv. simpl. rewrite Z.div_1_r, Z.mod_1_r. simpl. lia.
Qed.

(** Rounding the record reached after [n >= 1] positions gives the integer
    nearest to [M / 2^n], ties to even. *)
Lemma round_shr_inv r M n :
  1 <= n -> 0 <= M -> shr_inv r (2 * M) n ->
  round_nearest_even (shr_m r) (loc_of_shr_record r) = rne_div M (2 ^ n).
Proof.
  intros Hn HM (Hm & Hq & Hs).
  assert (P : 0 < 2 ^ (n - 1)) by (apply Z.pow_pos_nonneg; lia).
  assert (Hpow : 2 ^ n = 2 ^ (n - 1) * 2).
  { replace n with (n - 1 + 1) at 1 by lia. rewrite Z.pow_add_r by lia. reflexivity. }
  assert (Hq' : 2 * shr_m r + Z.b2z (shr_r r) = M / 2 ^ (n - 1)).
  { rewrite Hq, Hpow, (Z.mul_comm (2 ^ (n - 1)) 2), Z.div_mul_cancel_l by lia. reflexivity. }
  assert (Hs' : shr_s r = negb (M mod 2 ^ (n - 1) =? 0)).
  { rewrite Hs, Hpow, (Z.mul_comm (2 ^ (n - 1)) 2), Z.mul_mod_distr_l by lia.
    destruct (Z.eqb_spec (M mod 2 ^ (n - 1)) 0), (Z.eqb_spec (2 * (M mod 2 ^ (n - 1))) 0);
      try reflexivity; lia. }
  assert (Hdiv : M / 2 ^ n = shr_m r).
  { rewrite Hpow, <- Z.div_div by lia. rewrite <- Hq'.
    replace (2 * shr_m r + Z.b2z (shr_r r)) with (Z.b2z (shr_r r) + shr_m r * 2) by lia.
    rewrite Z.div_add by lia. destruct (shr_r r); simpl; lia. }
  assert (Hmod : M mod 2 ^ n = M mod 2 ^ (n - 1) + 2 ^ (n - 1) * Z.b2z (shr_r r)).
  { rewrite Hpow, Z.rem_mul_r by lia. rewrite <- Hq'.
    replace (2 * shr_m r + Z.b2z (shr_r r)) with (Z.b2z (shr_r r) + shr_m r * 2) by lia.
    rewrite Z.mod_add by lia. destruct (shr_r r); reflexivity. }
  pose proof (Z.mod_pos_bound M (2 ^ (n - 1)) P) as B.
  unfold rne_div. rewrite Hdiv, Hmod.
  destruct r as [m r s]. cbn [shr_m shr_r shr_s loc_of_shr_record] in *. clear Hq Hs Hq' Hdiv Hmod.
  destruct r, s; simpl Z.b2z; simpl round_nearest_even;
    destruct (Z.eqb_spec (M mod 2 ^ (n - 1)) 0); try discriminate;
    destruct (Z.compare_spec (2 * (M mod 2 ^ (n - 1) + 2 ^ (n - 1) * 1)) (2 ^ n));
    destruct (Z.compare_spec (2 * (M mod 2 ^ (n - 1) + 2 ^ (n - 1) * 0)) (2 ^ n));
    try reflexivity; try lia.
Qed.

Lemma shr_exact_round m e n :
  0 <= m -> 0 <= n ->
  round_nearest_even (shr_m (fst (shr (shr_record_of_loc m loc_Exact) e n)))
    (loc_of_shr_record (fst (shr (shr_record_of_loc m loc_Exact) e n)))
  = rne_div m (2 ^ n) /\
  snd (shr (shr_record_of_loc m loc_Exact) e n) = e + n.
Proof.
  intros Hm Hn. destruct n as [|n|n]; try lia.
  - simpl. split; [|lia]. unfold rne_div. rewrite Z.div_1_r, Z.mod_1_r. reflexivity.
  - cbn [shr fst snd]. split; [|reflexivity].
    apply round_shr_inv; [lia|lia|].
    apply (iter_pos_shr_1_inv n _ (2 * m) 0); [lia|]. apply shr_inv_exact; assumption.
Qed.

Lemma shr_exact_trunc m e n :
  0 <= m -> 0 <= n ->
  shr_m (fst (shr (shr_record_of_loc m loc_Exact) e n)) = m / 2 ^ n.
Proof.
  intros Hm Hn. destruct n as [|n|n]; try lia.
  - simpl. rewrite Z.div_1_r. reflexivity.
  - cbn [shr fst snd].
    assert (H : shr_inv (iter_pos shr_1 n (shr_record_of_loc m loc_Exact)) (2 * m) (0 + Z.pos n)).
    { apply iter_pos_shr_1_inv; [lia|]. apply shr_inv_exact; assumption. }
    destruct H as (H0 & Hq & _). simpl (0 + Z.pos n) in Hq.
    set (r := iter_pos shr_1 n (shr_record_of_loc m loc_Exact)) in *.
    assert (P : 0 < 2 ^ (Z.pos n - 1)) by (apply Z.pow_pos_nonneg; lia).
    assert (Hpow : 2 ^ Z.pos n = 2 ^ (Z.pos n - 1) * 2).
    { replace (Z.pos n) with (Z.pos n - 1 + 1) at 1 by lia. rewrite Z.pow_add_r by lia. reflexivity. }
    rewrite Hpow in *.
    rewrite (Z.mul_comm (2 ^ (Z.pos n - 1)) 2), Z.div_mul_cancel_l in Hq by lia.
    rewrite <- Z.div_div by lia.
    rewrite <- Hq.
    replace (2 * shr_m r + Z.b2z (shr_r r)) with (Z.b2z (shr_r r) + shr_m r * 2) by lia.
    rewrite Z.div_add by lia. destruct (shr_r r); simpl; lia.
Qed.

Lemma shr_fexp_exact m e :
  0 <= m ->
  exists rec,
    shr_fexp prec emax m e loc_Exact
      = (rec, e + Z.max 0 (fexp prec emax (digits m + e) - e)) /\
    round_nearest_even (shr_m rec) (loc_of_shr_record rec)
      = rne_div m (2 ^ Z.max 0 (fexp prec emax (digits m + e) - e)) /\
    shr_m rec = m / 2 ^ Z.max 0 (fexp prec emax (digits m + e) - e).
Proof.
  intros Hm. unfold shr_fexp. rewrite (Zdigits2_digits m Hm).
  set (n := fexp prec emax (digits m + e) - e).
  destruct (Z_le_gt_dec 0 n) as [Hn|Hn].
  - rewrite Z.max_r by lia.
    exists (fst (shr (shr_record_of_loc m loc_Exact) e n)).
    destruct (shr_exact_round m e n Hm Hn) as [H1 H2].
    split; [|split].
    + rewrite <- H2. apply surjective_pairing.
    + exact H1.
    + apply shr_exact_trunc; assumption.
  - rewrite Z.max_l by lia. exists (shr_record_of_loc m loc_Exact).
    destruct n; try lia. cbn [shr shr_record_of_loc shr_m loc_of_shr_record round_nearest_even].
    rewrite Z.add_0_r. split; [reflexivity|]. change (2 ^ 0) with 1.
    unfold rne_div. rewrite Z.div_1_r, Z.mod_1_r. split; reflexivity.
Qed.

Lemma fexp_eq z : fexp prec emax z = Z.max (z - 53) (-1074).
Proof. reflexivity. Qed.

Lemma pow2_split a b : 0 <= a -> 0 <= b -> 2 ^ (a + b) = 2 ^ a * 2 ^ b.
Proof. intros. apply Z.pow_add_r; assumption. Qed.

Lemma binary_round_aux_exact s m e :
  0 < m -> -1074 <= e -> e <= fexp prec emax (digits m + e) ->
  m * 2 ^ (e + 1074) < 2 ^ 2097 ->
  binary_round_aux prec emax s m e loc_Exact
  = SF_of_val s (RN (m * 2 ^ (e + 1074)) 1).
Proof.
  intros Hm He Hfe Hb.
  assert (P52 : 2 ^ 52 = 4503599627370496) by reflexivity.
  assert (P53 : 2 ^ 53 = 9007199254740992) by reflexivity.
  pose proof (digits_pos_spec m Hm) as [Dl Du].
  assert (D1 : 1 <= digits m).
  { destruct m; try lia. unfold digits. pose proof (Z.log2_nonneg (Z.pos p)). lia. }
  assert (Pe : 0 < 2 ^ (e + 1074)) by (apply Z.pow_pos_nonneg; lia).
  assert (Dv : digits (m * 2 ^ (e + 1074)) = digits m + (e + 1074))
    by (apply digits_mul_pow; lia).
  assert (Dmax : digits m + (e + 1074) <= 2097).
  { rewrite <- Dv. apply digits_lt_pow; lia. }
  unfold binary_round_aux.
  destruct (shr_fexp_exact m e ltac:(lia)) as (rec1 & E1 & R1 & _).
  rewrite E1. rewrite R1.
  rewrite fexp_eq in *.
  set (n1 := Z.max 0 (Z.max (digits m + e - 53) (-1074) - e)) in *.
  assert (N1 : n1 = Z.max 0 (Z.max (digits m + e - 53) (-1074) - e)) by reflexivity.
  clearbody n1.
  set (m1 := rne_div m (2 ^ n1)).
  set (e1 := e + n1).
  assert (He1 : e1 = e + n1) by reflexivity. clearbody e1.
  assert (Hm1 : 0 < m1 <= 2 ^ 53 /\ (m1 < 2 ^ 53 -> digits m1 = 53 \/ (e1 = -1074 /\ digits m1 <= 53))).
  { destruct (Z_le_gt_dec (digits m + e - 53) (-1074)) as [A|B].
    - assert (n1 = 0) by lia. assert (e = -1074) by lia.
      assert (m1 = m).
      { unfold m1. rewrite H. change (2 ^ 0) with 1. unfold rne_div.
        rewrite Z.div_1_r, Z.mod_1_r. reflexivity. }
      assert (m < 2 ^ 53).
      { eapply Z.lt_le_trans; [exact Du|]. apply Z.pow_le_mono_r; lia. }
      rewrite H1. split; [lia|]. intros _. right. lia.
    - assert (Hn1 : n1 = digits m - 53) by lia.
      assert (P1 : 0 < 2 ^ n1) by (apply Z.pow_pos_nonneg; lia).
      assert (L : 2 ^ 52 <= m1).
      { apply rne_div_ge; [lia|]. rewrite <- pow2_split by lia.
        replace (n1 + 52) with (digits m - 1) by lia. exact Dl. }
      assert (U : m1 <= 2 ^ 53).
      { apply rne_div_le; [lia|]. rewrite <- pow2_split by lia.
        replace (n1 + 53) with (digits m) by lia. exact Du. }
      split; [lia|]. intros Hlt. left. apply digits_unique; [lia|].
      change (53 - 1) with 52. lia. }
  destruct Hm1 as [[M0 M53] Mdig].
  destruct (shr_fexp_exact m1 e1 ltac:(lia)) as (rec2 & E2 & _ & T2).
  rewrite E2. rewrite T2. rewrite fexp_eq.
  (* the value side *)
  assert (HRN : RN (m * 2 ^ (e + 1074)) 1 = 2 ^ (e1 + 1074) * m1).
  { unfold RN. rewrite Z.div_1_r, Dv, Z.mul_1_l.
    assert (K : Z.max 0 (digits m + (e + 1074) - 53) = e1 + 1074) by lia.
    rewrite K. f_equal. unfold m1.
    replace (e1 + 1074) with (n1 + (e + 1074)) by lia.
    rewrite (pow2_split n1 (e + 1074)) by lia. apply rne_div_scale; [apply Z.pow_pos_nonneg|]; lia. }
  rewrite HRN.
  assert (Pk : 0 < 2 ^ (e1 + 1074)) by (apply Z.pow_pos_nonneg; lia).
  assert (E1max : e1 <= 970) by lia.
  assert (E1min : -1074 <= e1) by lia.
  unfold SF_of_val.
  assert (Vpos : 0 < 2 ^ (e1 + 1074) * m1) by nia.
  destruct (2 ^ (e1 + 1074) * m1) as [|v|v] eqn:Ev; try lia.
  rewrite <- Ev.
  assert (Dv1 : digits (2 ^ (e1 + 1074) * m1) = digits m1 + (e1 + 1074)).
  { rewrite Z.mul_comm. apply digits_mul_pow; lia. }
  rewrite Dv1.
  destruct (Z_lt_le_dec m1 (2 ^ 53)) as [Lt|Ge].
  - assert (N2 : Z.max 0 (Z.max (digits m1 + e1 - 53) (-1074) - e1) = 0)
      by (destruct (Mdig Lt) as [->|[? ?]]; lia).
    rewrite N2. change (2 ^ 0) with 1. rewrite Z.div_1_r, Z.add_0_r.
    assert (K2 : Z.max 0 (digits m1 + (e1 + 1074) - 53) = e1 + 1074)
      by (destruct (Mdig Lt) as [->|[? ?]]; lia).
    rewrite K2. rewrite Z.mul_comm, Z.div_mul by lia.
    destruct m1 as [|p1|p1]; try lia.
    replace (e1 + 1074 - 1074) with e1 by lia.
    unfold emax, prec.
    destruct (Z.leb_spec e1 (1024 - 53)); [reflexivity|lia].
  - assert (M1 : m1 = 2 ^ 53) by lia.
    assert (D54 : digits m1 = 54) by (rewrite M1; reflexivity).
    rewrite D54.
    assert (N2 : Z.max 0 (Z.max (54 + e1 - 53) (-1074) - e1) = 1) by lia.
    rewrite N2.
    assert (K2 : Z.max 0 (54 + (e1 + 1074) - 53) = e1 + 1074 + 1) by lia.
    rewrite K2. rewrite M1.
    rewrite (pow2_split (e1 + 1074) 1) by lia.
    change (2 ^ 53) with (2 ^ 52 * 2 ^ 1).
    replace (2 ^ (e1 + 1074) * (2 ^ 52 * 2 ^ 1)) with (2 ^ 52 * (2 ^ (e1 + 1074) * 2 ^ 1)) by ring.
    rewrite Z.div_mul by lia.
    rewrite Z.div_mul by lia.
    change (2 ^ 52) with (Zpos (4503599627370496)).
    cbv iota beta.
    replace (e1 + 1074 + 1 - 1074) with (e1 + 1) by lia.
    unfold emax, prec.
    destruct (Z.leb_spec (e1 + 1) (1024 - 53)); [reflexivity|lia].
Qed.

Lemma iter_xO_pow m d : Zpos (Pos.iter xO m d) = Zpos m * 2 ^ Zpos d.
Proof.
  revert m. induction d as [|d IH] using Pos.peano_ind; intros m.
  - simpl. lia.
  - rewrite Pos.iter_succ, Pos2Z.inj_succ, Z.pow_succ_r by lia.
    change (Z.pos (Pos.iter xO m d)~0) with (2 * Z.pos (Pos.iter xO m d)).
    rewrite IH. ring.
Qed.

Lemma shl_align_spec mx ex ex' :
  Zpos (fst (shl_align mx ex ex')) = Zpos mx * 2 ^ (ex - Z.min ex ex') /\
  snd (shl_align mx ex ex') = Z.min ex ex'.
Proof.
  unfold shl_align. destruct (ex' - ex) as [|d|d] eqn:E; cbn [fst snd].
  - rewrite Z.min_l by lia. rewrite Z.sub_diag. simpl. lia.
  - rewrite Z.min_l by lia. rewrite Z.sub_diag. simpl. lia.
  - rewrite Z.min_r by lia. rewrite iter_xO_pow.
    replace (ex - ex') with (Z.pos d) by lia. split; reflexivity.
Qed.

Lemma binary_round_exact s mx ex :
  -1074 <= ex -> Zpos mx * 2 ^ (ex + 1074) < 2 ^ 2097 ->
  binary_round prec emax s mx ex = SF_of_val s (RN (Zpos mx * 2 ^ (ex + 1074)) 1).
Proof.
  intros He Hb. unfold binary_round.
  rewrite digits2_pos_digits.
  destruct (shl_align_spec mx ex (fexp prec emax (digits (Zpos mx) + ex))) as [Hm Hez].
  destruct (shl_align mx ex (fexp prec emax (digits (Z.pos mx) + ex))) as [mz ez].
  cbn [fst snd] in Hm, Hez.
  rewrite fexp_eq in *.
  assert (Hval : Zpos mz * 2 ^ (ez + 1074) = Zpos mx * 2 ^ (ex + 1074)).
  { rewrite Hm, <- Hez, <- Z.mul_assoc, <- pow2_split by lia. f_equal. f_equal. lia. }
  rewrite <- Hval. apply binary_round_aux_exact; try lia.
  rewrite Hm, <- Hez, digits_mul_pow by lia. rewrite fexp_eq. lia.
Qed.

Lemma binary_normalize_exact m e :
  -1074 <= e -> Z.abs m * 2 ^ (e + 1074) < 2 ^ 2097 ->
  binary_normalize prec emax m e false
  = SF_of_val (m <? 0) (RN (Z.abs m * 2 ^ (e + 1074)) 1).
Proof.
  intros He Hb. destruct m as [|p|p]; cbn [binary_normalize].
  - reflexivity.
  - apply binary_round_exact; assumption.
  - apply binary_round_exact; assumption.
Qed.

Lemma RN_representable a b : 0 <= a -> 0 < b -> representable (RN a b).
Proof.
  intros Ha Hb. unfold RN.
  set (k := Z.max 0 (digits (a / b) - 53)).
  assert (Hq0 : 0 <= a / b) by (apply Z.div_pos; lia).
  assert (Pk : 0 < 2 ^ k) by (apply Z.pow_pos_nonneg; lia).
  exists k, (rne_div a (b * 2 ^ k)).
  split; [reflexivity|]. split; [lia|].
  assert (U : a / b < 2 ^ (k + 53)).
  { destruct (Z.eq_dec (a / b) 0) as [Z0|].
    - rewrite Z0. apply Z.pow_pos_nonneg; lia.
    - pose proof (digits_pos_spec (a / b) ltac:(lia)) as [_ U].
      eapply Z.lt_le_trans; [exact U|]. apply Z.pow_le_mono_r; lia. }
  assert (Ua : a < b * 2 ^ (k + 53)).
  { pose proof (Z.mul_succ_div_gt a b Hb). nia. }
  rewrite pow2_split in Ua by lia.
  split; [split|].
  - pose proof (rne_div_bounds a (b * 2 ^ k) ltac:(nia)).
    assert (0 <= a / (b * 2 ^ k)) by (apply Z.div_pos; nia). lia.
  - apply rne_div_le; [nia|lia].
  - destruct (Z.eq_dec k 0) as [|N]; [left; assumption|right].
    assert (Hk : k = digits (a / b) - 53) by lia.
    assert (Hpos : 0 < a / b).
    { destruct (Z.eq_dec (a / b) 0) as [Z0|]; [|lia]. rewrite Z0 in Hk. simpl in Hk. lia. }
    pose proof (digits_pos_spec _ Hpos) as [L _].
    replace (digits (a / b) - 1) with (k + 52) in L by lia.
    rewrite pow2_split in L by lia.
    apply rne_div_ge; [nia|]. pose proof (Z.mul_div_le a b Hb). nia.
Qed.

Lemma SF_of_val_representable s v :
  representable v -> v < 2 ^ 2098 ->
  SFval (SF_of_val s v) = cond_Zopp s v /\
  valid_binary (SF_of_val s v) = true /\
  SF_of_val s v = match v with
                  | Zpos _ => SF_of_val s v
                  | _ => S754_zero s
                  end /\
  (0 < v -> exists m e, SF_of_val s v = S754_finite s m e).
Proof.
  intros (k & r & Hv & Hk & [Hr0 Hr] & Hshape) Hb.
  assert (P52 : 2 ^ 52 = 4503599627370496) by reflexivity.
  assert (P53 : 2 ^ 53 = 9007199254740992) by reflexivity.
  assert (Pk : 0 < 2 ^ k) by (apply Z.pow_pos_nonneg; lia).
  destruct (Z.eq_dec r 0) as [R0|RN0].
  { subst r. rewrite Z.mul_0_r in Hv. subst v. simpl. destruct s; repeat split; try reflexivity; intros; lia. }
  assert (Vpos : 0 < v) by nia.
  assert (Dv : digits v = digits r + k).
  { rewrite Hv, Z.mul_comm. apply digits_mul_pow; lia. }
  assert (Dr : 1 <= digits r <= 54).
  { split.
    - pose proof (digits_ge_pow r 0 ltac:(lia) ltac:(simpl; lia)). lia.
    - apply digits_lt_pow; [lia|]. split; [lia|].
      eapply Z.le_lt_trans; [exact Hr|]. reflexivity. }
  assert (Dmax : digits v <= 2098) by (apply digits_lt_pow; lia).
  unfold SF_of_val.
  destruct v as [|pv|pv] eqn:Ev; try lia. rewrite <- Ev in *.
  rewrite Dv.
  set (k' := Z.max 0 (digits r + k - 53)).
  assert (Hk' : 0 <= k') by lia.
  assert (Pk' : 0 < 2 ^ k') by (apply Z.pow_pos_nonneg; lia).
  assert (Hdivv : exists m, v = 2 ^ k' * m /\ 0 < m /\ digits m + k' = digits v).
  { destruct (Z_lt_le_dec r (2 ^ 53)) as [Lt|Ge].
    - assert (digits r <= 53) by (apply digits_lt_pow; lia).
      destruct Hshape as [K0|R52].
      + exists r. subst k. replace k' with 0 by lia. split; [lia|]. split; lia.
      + assert (digits r = 53) by (apply digits_unique; [lia|change (53 - 1) with 52; lia]).
        exists r. replace k' with k by lia. split; [lia|]. split; lia.
    - assert (r = 2 ^ 53) by lia.
      assert (digits r = 54) by (subst r; reflexivity).
      exists (2 ^ 52). replace k' with (k + 1) by lia. rewrite pow2_split by lia.
      split; [rewrite Hv; subst r; change (2 ^ 53) with (2 ^ 1 * 2 ^ 52); ring|].
      split; [lia|]. change (digits (2 ^ 52)) with 53. lia. }
  destruct Hdivv as (m & Hvm & Hm0 & Hdm).
  assert (Hq : v / 2 ^ k' = m).
  { rewrite Hvm, Z.mul_comm, Z.div_mul by lia. reflexivity. }
  rewrite Hq. destruct m as [|pm|pm]; try lia.
  assert (Hcanon : digits (Z.pos pm) = 53 \/ (k' = 0 /\ digits (Z.pos pm) <= 53)) by lia.
  unfold emax, prec.
  destruct (Z.leb_spec (k' - 1074) (1024 - 53)) as [Le|Gt]; [|lia].
  split; [|split; [|split]].
  - cbn [SFval]. replace (k' - 1074 + 1074) with k' by lia.
    rewrite Hvm. f_equal. ring.
  - cbn [valid_binary]. unfold bounded, canonical_mantissa.
    rewrite digits2_pos_digits, fexp_eq. unfold emax, prec.
    apply andb_true_intro. split; [apply Z.eqb_eq|apply Z.leb_le]; lia.
  - reflexivity.
  - intros _. eexists _, _. reflexivity.
Qed.

Lemma valid_finite_inv s m e :
  valid_binary (S754_finite s m e) = true ->
  -1074 <= e <= 971 /\
  (digits (Zpos m) = 53 \/ (e = -1074 /\ digits (Zpos m) <= 53)).
Proof.
  cbn [valid_binary]. unfold bounded, canonical_mantissa.
  rewrite digits2_pos_digits, fexp_eq. unfold emax, prec.
  intros H. apply andb_prop in H. destruct H as [H1 H2].
  apply Z.eqb_eq in H1. apply Z.leb_le in H2. lia.
Qed.

Lemma digits_ge_1 n : 0 < n -> 1 <= digits n.
Proof.
  intros H. pose proof (digits_ge_pow n 0 ltac:(lia) ltac:(simpl; lia)). lia.
Qed.

Lemma posval_bounds s m e :
  valid_binary (S754_finite s m e) = true ->
  0 < Zpos m * 2 ^ (e + 1074) < 2 ^ (e + 1127) /\
  (-1074 < e -> 2 ^ (e + 1126) <= Zpos m * 2 ^ (e + 1074)).
Proof.
  intros H. apply valid_finite_inv in H. destruct H as [He Hd].
  assert (P : 0 < 2 ^ (e + 1074)) by (apply Z.pow_pos_nonneg; lia).
  pose proof (digits_pos_spec (Zpos m) ltac:(lia)) as [L U].
  assert (U53 : Zpos m < 2 ^ 53).
  { eapply Z.lt_le_trans; [exact U|]. apply Z.pow_le_mono_r; lia. }
  split; [split; [lia|]|].
  - replace (e + 1127) with (53 + (e + 1074)) by lia.
    rewrite (pow2_split 53 (e + 1074)) by lia. nia.
  - intros Hn. assert (D : digits (Zpos m) = 53) by lia. rewrite D in L.
    change (53 - 1) with 52 in L.
    replace (e + 1126) with (52 + (e + 1074)) by lia.
    rewrite (pow2_split 52 (e + 1074)) by lia. nia.
Qed.

Lemma posval_compare s1 m1 e1 s2 m2 e2 :
  valid_binary (S754_finite s1 m1 e1) = true ->
  valid_binary (S754_finite s2 m2 e2) = true ->
  match e1 ?= e2 with
  | Lt => Lt
  | Gt => Gt
  | Eq => Pos.compare_cont Eq m1 m2
  end = (Zpos m1 * 2 ^ (e1 + 1074) ?= Zpos m2 * 2 ^ (e2 + 1074)).
Proof.
  intros V1 V2.
  pose proof (posval_bounds _ _ _ V1) as [[A1 B1] C1].
  pose proof (posval_bounds _ _ _ V2) as [[A2 B2] C2].
  pose proof (valid_finite_inv _ _ _ V1) as [E1 _].
  pose proof (valid_finite_inv _ _ _ V2) as [E2 _].
  symmetry. destruct (Z.compare_spec e1 e2) as [E|L|G].
  - subst e2. assert (P : 0 < 2 ^ (e1 + 1074)) by (apply Z.pow_pos_nonneg; lia).
    change (Pos.compare_cont Eq m1 m2) with (Z.pos m1 ?= Z.pos m2).
    destruct (Z.compare_spec (Zpos m1) (Zpos m2)) as [E|L|G].
    + rewrite E. apply Z.compare_refl.
    + apply Z.compare_lt_iff. nia.
    + apply Z.compare_gt_iff. nia.
  - apply Z.compare_lt_iff.
    assert (2 ^ (e1 + 1127) <= 2 ^ (e2 + 1126)) by (apply Z.pow_le_mono_r; lia).
    specialize (C2 ltac:(lia)). lia.
  - apply Z.compare_gt_iff.
    assert (2 ^ (e2 + 1127) <= 2 ^ (e1 + 1126)) by (apply Z.pow_le_mono_r; lia).
    specialize (C1 ltac:(lia)). lia.
Qed.

Lemma SFcompare_val x y :
  valid_binary x = true -> valid_binary y = true ->
  SF_is_finite x = true -> SF_is_finite y = true ->
  SFcompare x y = Some (SFval x ?= SFval y).
Proof.
  intros Vx Vy Fx Fy.
  destruct x as [sx| | |sx mx ex], y as [sy| | |sy my ey]; try discriminate.
  - reflexivity.
  - pose proof (posval_bounds _ _ _ Vy) as [[A _] _].
    destruct sy; cbn [SFcompare SFval cond_Zopp]; f_equal; symmetry;
      [apply Z.compare_gt_iff|apply Z.compare_lt_iff]; lia.
  - pose proof (posval_bounds _ _ _ Vx) as [[A _] _].
    destruct sx; cbn [SFcompare SFval cond_Zopp]; f_equal; symmetry;
      [apply Z.compare_lt_iff|apply Z.compare_gt_iff]; lia.
  - pose proof (posval_bounds _ _ _ Vx) as [[Ax _] _].
    pose proof (posval_bounds _ _ _ Vy) as [[Ay _] _].
    pose proof (posval_compare _ _ _ _ _ _ Vx Vy) as C.
    destruct sx, sy; cbn [SFcompare SFval cond_Zopp]; f_equal.
    + rewrite Z.compare_opp, (Z.compare_antisym (Z.pos mx * 2 ^ (ex + 1074))), <- C.
      destruct (ex ?= ey); reflexivity.
    + symmetry. apply Z.compare_lt_iff; lia.
    + symmetry. apply Z.compare_gt_iff; lia.
    + exact C.
Qed.

Lemma RN_scale a b c : 0 < b -> 0 < c -> RN (a * c) (b * c) = RN a b.
Proof.
  intros Hb Hc. unfold RN. rewrite Z.div_mul_cancel_r by lia.
  set (k := Z.max 0 (digits (a / b) - 53)).
  assert (Pk : 0 < 2 ^ k) by (apply Z.pow_pos_nonneg; lia).
  f_equal. replace (b * c * 2 ^ k) with (b * 2 ^ k * c) by ring.
  apply rne_div_scale; nia.
Qed.

Lemma RN_upper a b n :
  0 <= a -> 0 < b -> 0 <= n -> a < b * 2 ^ n -> RN a b <= 2 ^ n.
Proof.
  intros Ha Hb Hn Hlt.
  assert (Hq : a / b < 2 ^ n) by (apply Z.div_lt_upper_bound; lia).
  assert (Hq0 : 0 <= a / b) by (apply Z.div_pos; lia).
  unfold RN. set (k := Z.max 0 (digits (a / b) - 53)).
  assert (Kdef : k = Z.max 0 (digits (a / b) - 53)) by reflexivity. clearbody k.
  assert (Pk : 0 < 2 ^ k) by (apply Z.pow_pos_nonneg; lia).
  assert (D : digits (a / b) <= n) by (apply digits_lt_pow; lia).
  assert (Le : k <= n) by lia.
  replace n with (k + (n - k)) by lia. rewrite pow2_split by lia.
  apply Z.mul_le_mono_nonneg_l; [lia|].
  apply rne_div_le; [nia|].
  rewrite <- Z.mul_assoc, <- pow2_split by lia.
  replace (k + (n - k)) with n by lia. exact Hlt.
Qed.

Lemma RN_0 b : 0 < b -> RN 0 b = 0.
Proof.
  intros Hb. unfold RN. rewrite Z.div_0_l by lia. simpl. unfold rne_div.
  rewrite Z.div_0_l, Z.mod_0_l by lia.
  destruct (Z.compare_spec (2 * 0) (b * 1)); simpl; lia.
Qed.

(** The value of a valid float is a fixed point of the rounding. *)
Lemma RN_posval s m e :
  valid_binary (S754_finite s m e) = true ->
  RN (Zpos m * 2 ^ (e + 1074)) 1 = Zpos m * 2 ^ (e + 1074).
Proof.
  intros V. apply valid_finite_inv in V. destruct V as [He Hd].
  assert (P : 0 < 2 ^ (e + 1074)) by (apply Z.pow_pos_nonneg; lia).
  unfold RN. rewrite Z.div_1_r, Z.mul_1_l, digits_mul_pow by lia.
  pose proof (digits_ge_1 (Zpos m) ltac:(lia)).
  set (k := Z.max 0 (digits (Z.pos m) + (e + 1074) - 53)).
  assert (Hk : 0 <= k <= e + 1074) by (unfold k; lia). clearbody k.
  assert (Pk : 0 < 2 ^ k) by (apply Z.pow_pos_nonneg; lia).
  assert (Hsplit : 2 ^ (e + 1074) = 2 ^ (e + 1074 - k) * 2 ^ k).
  { rewrite <- pow2_split by lia. f_equal. lia. }
  rewrite rne_div_exact.
  - rewrite Hsplit at 1. rewrite Z.mul_assoc, Z.div_mul by lia. rewrite Hsplit. ring.
  - lia.
  - rewrite Hsplit, Z.mul_assoc. apply Z.mod_mul. lia.
Qed.

Lemma RNs_SFval x :
  valid_binary x = true -> RNs (SFval x) = SFval x.
Proof.
  intros V. unfold RNs. destruct x as [s| | |s m e]; try reflexivity.
  pose proof (posval_bounds _ _ _ V) as [[A _] _].
  pose proof (RN_posval _ _ _ V) as R.
  destruct s; cbn [SFval cond_Zopp].
  - rewrite Z.sgn_neg, Z.abs_neq by lia. rewrite Z.opp_involutive, R. lia.
  - rewrite Z.sgn_pos, Z.abs_eq by lia. rewrite R. lia.
Qed.

Lemma cond_Zopp_sgn z : cond_Zopp (z <? 0) (Z.abs z) = z.
Proof. destruct (Z.ltb_spec z 0); simpl; lia. Qed.

Lemma RNs_alt z : RNs z = cond_Zopp (z <? 0) (RN (Z.abs z) 1).
Proof.
  unfold RNs. destruct (Z.ltb_spec z 0); cbn [cond_Zopp].
  - rewrite Z.sgn_neg by lia. lia.
  - destruct (Z.eq_dec z 0).
    + subst. simpl. rewrite RN_0 by lia. reflexivity.
    + rewrite Z.sgn_pos by lia. lia.
Qed.

(** The float of a rounded value. *)
Lemma SF_of_val_RN s a b :
  0 <= a -> 0 < b -> a < b * 2 ^ 2097 ->
  SFval (SF_of_val s (RN a b)) = cond_Zopp s (RN a b) /\
  valid_binary (SF_of_val s (RN a b)) = true /\
  SF_is_finite (SF_of_val s (RN a b)) = true.
Proof.
  intros Ha Hb Hlt.
  pose proof (RN_upper a b 2097 Ha Hb ltac:(lia) Hlt) as U.
  assert (U' : RN a b < 2 ^ 2098).
  { eapply Z.le_lt_trans; [exact U|]. apply Z.pow_lt_mono_r; lia. }
  destruct (SF_of_val_representable s (RN a b) (RN_representable a b Ha Hb) U')
    as (H1 & H2 & _ & H4).
  split; [exact H1|]. split; [exact H2|].
  destruct (RN_representable a b Ha Hb) as (k & r & Hv & Hk & Hr & _).
  assert (0 <= RN a b).
  { rewrite Hv. apply Z.mul_nonneg_nonneg; [apply Z.pow_nonneg|]; lia. }
  destruct (Z.eq_dec (RN a b) 0) as [E|N].
  - rewrite E. reflexivity.
  - destruct (H4 ltac:(lia)) as (m & e & ->). reflexivity.
Qed.

Lemma SFadd_val x y :
  valid_binary x = true -> valid_binary y = true ->
  SF_is_finite x = true -> SF_is_finite y = true ->
  Z.abs (SFval x + SFval y) < 2 ^ 2097 ->
  SFval (SFadd prec emax x y) = RNs (SFval x + SFval y) /\
  valid_binary (SFadd prec emax x y) = true /\
  SF_is_finite (SFadd prec emax x y) = true.
Proof.
  intros Vx Vy Fx Fy Hb.
  destruct x as [sx| | |sx mx ex], y as [sy| | |sy my ey]; try discriminate.
  - split; [|split]; destruct sx, sy; reflexivity.
  - cbn [SFadd]. rewrite Z.add_0_l. rewrite RNs_SFval by assumption. auto.
  - cbn [SFadd]. change (SFval (S754_zero sy)) with 0. rewrite Z.add_0_r.
    rewrite RNs_SFval by assumption. auto.
  - pose proof (valid_finite_inv _ _ _ Vx) as [Ex _].
    pose proof (valid_finite_inv _ _ _ Vy) as [Ey _].
    cbn [SFadd].
    destruct (shl_align_spec mx ex (Z.min ex ey)) as [Hx _].
    destruct (shl_align_spec my ey (Z.min ex ey)) as [Hy _].
    rewrite Hx, Hy.
    replace (Z.min ex (Z.min ex ey)) with (Z.min ex ey) by lia.
    replace (Z.min ey (Z.min ex ey)) with (Z.min ex ey) by lia.
    set (ez := Z.min ex ey).
    assert (Hez : ez = Z.min ex ey) by reflexivity. clearbody ez.
    set (M := cond_Zopp sx (Z.pos mx * 2 ^ (ex - ez)) + cond_Zopp sy (Z.pos my * 2 ^ (ey - ez))).
    assert (Pz : 0 < 2 ^ (ez + 1074)) by (apply Z.pow_pos_nonneg; lia).
    assert (HM : M * 2 ^ (ez + 1074) = SFval (S754_finite sx mx ex) + SFval (S754_finite sy my ey)).
    { unfold M. cbn [SFval].
      replace (ex + 1074) with (ex - ez + (ez + 1074)) by lia.
      replace (ey + 1074) with (ey - ez + (ez + 1074)) by lia.
      rewrite (pow2_split (ex - ez) (ez + 1074)), (pow2_split (ey - ez) (ez + 1074)) by lia.
      destruct sx, sy; cbn [cond_Zopp]; ring. }
    set (S := SFval (S754_finite sx mx ex) + SFval (S754_finite sy my ey)) in *.
    clearbody S. clearbody M.
    assert (Habs : Z.abs M * 2 ^ (ez + 1074) = Z.abs S).
    { rewrite <- HM, Z.abs_mul, (Z.abs_eq (2 ^ (ez + 1074))) by lia. reflexivity. }
    assert (Hsign : (M <? 0) = (S <? 0)).
    { destruct (Z.ltb_spec M 0), (Z.ltb_spec S 0); try reflexivity; nia. }
    rewrite binary_normalize_exact by (try lia; rewrite Habs; exact Hb).
    rewrite Habs, Hsign, RNs_alt.
    apply SF_of_val_RN; lia.
Qed.

Lemma SFopp_val x : SFval (SFopp x) = - SFval x.
Proof. destruct x as [s| | |s m e]; try reflexivity. destruct s; cbn [SFopp SFval cond_Zopp negb]; lia. Qed.

Lemma SFsub_add x y :
  SF_is_finite x = true -> SF_is_finite y = true ->
  SFsub prec emax x y = SFadd prec emax x (SFopp y).
Proof.
  intros Fx Fy.
  destruct x as [sx| | |sx mx ex], y as [sy| | |sy my ey]; try discriminate;
    cbn [SFsub SFadd SFopp]; try reflexivity.
  - destruct sx, sy; reflexivity.
  - f_equal. destruct sy; cbn [cond_Zopp negb]; lia.
Qed.

Lemma SFsub_val x y :
  valid_binary x = true -> valid_binary y = true ->
  SF_is_finite x = true -> SF_is_finite y = true ->
  Z.abs (SFval x - SFval y) < 2 ^ 2097 ->
  SFval (SFsub prec emax x y) = RNs (SFval x - SFval y) /\
  valid_binary (SFsub prec emax x y) = true /\
  SF_is_finite (SFsub prec emax x y) = true.
Proof.
  intros Vx Vy Fx Fy Hb. rewrite SFsub_add by assumption.
  assert (Vo : valid_binary (SFopp y) = true) by (destruct y; assumption).
  assert (Fo : SF_is_finite (SFopp y) = true) by (destruct y; assumption).
  pose proof (SFadd_val x (SFopp y) Vx Vo Fx Fo) as H.
  rewrite SFopp_val in H. apply H. exact Hb.
Qed.

Lemma mul_lt_bounds a b A B : 0 < a < A -> 0 < b < B -> a * b < A * B.
Proof. intros. nia. Qed.

Lemma le_mul_one a b c : 1 <= a -> 0 <= c <= b -> c <= a * b.
Proof. intros. nia. Qed.

Lemma SFmul_val x y :
  valid_binary x = true -> valid_binary y = true ->
  0 < SFval x -> 0 < SFval y ->
  2 ^ 1179 <= SFval x * SFval y < 2 ^ 3171 ->
  SFval (SFmul prec emax x y) = RN (SFval x * SFval y) (2 ^ 1074) /\
  valid_binary (SFmul prec emax x y) = true /\
  SF_is_finite (SFmul prec emax x y) = true.
Proof.
  intros Vx Vy Px Py [Hl Hu]. seal Hl. seal Hu.
  destruct x as [sx| | |sx mx ex]; try (cbn [SFval] in Px; lia).
  destruct y as [sy| | |sy my ey]; try (cbn [SFval] in Py; lia).
  pose proof (posval_bounds _ _ _ Vx) as [[Ax Bx] Cx].
  pose proof (posval_bounds _ _ _ Vy) as [[Ay By] Cy].
  pose proof (valid_finite_inv _ _ _ Vx) as [Ex Dx].
  pose proof (valid_finite_inv _ _ _ Vy) as [Ey Dy].
  destruct sx; [cbn [SFval cond_Zopp] in Px; lia|].
  destruct sy; [cbn [SFval cond_Zopp] in Py; lia|].
  cbn [SFval cond_Zopp] in *. cbn [SFmul xorb].
  change (Z.pos (mx * my)) with (Z.pos mx * Z.pos my).
  assert (Hsum : -1074 <= ex + ey).
  { destruct (Z_le_gt_dec (-1074) (ex + ey)); [assumption|exfalso].
    assert (H : Z.pos mx * 2 ^ (ex + 1074) * (Z.pos my * 2 ^ (ey + 1074))
            < 2 ^ (ex + 1127) * 2 ^ (ey + 1127))
      by (apply mul_lt_bounds; split; assumption).
    rewrite <- pow2_split in H by lia.
    assert (H2 : 2 ^ (ex + 1127 + (ey + 1127)) <= 2 ^ 1179) by (apply Z.pow_le_mono_r; lia).
    unseal Hl.
    exact (Z.lt_irrefl _ (Z.le_lt_trans _ _ _ Hl (Z.lt_le_trans _ _ _ H H2))). }
  assert (Hprod : Z.pos mx * Z.pos my * 2 ^ (ex + ey + 1074) * 2 ^ 1074
                  = Z.pos mx * 2 ^ (ex + 1074) * (Z.pos my * 2 ^ (ey + 1074))).
  { replace (ex + ey + 1074) with (ex + 1074 + ey) by lia.
    rewrite <- Z.mul_assoc, <- pow2_split by lia.
    replace (ex + 1074 + ey + 1074) with (ex + 1074 + (ey + 1074)) by lia.
    rewrite pow2_split by lia.
    generalize (2 ^ 1074), (2 ^ (ex + 1074)), (2 ^ (ey + 1074)). intros. ring. }
  assert (Hub : Z.pos mx * Z.pos my * 2 ^ (ex + ey + 1074) < 2 ^ 2097).
  { unseal Hu. rewrite <- Hprod in Hu.
    change (2 ^ 3171) with (2 ^ (2097 + 1074)) in Hu.
    rewrite (pow2_split 2097 1074) in Hu by lia.
    apply Z.mul_lt_mono_pos_r in Hu; [exact Hu|]. apply Z.pow_pos_nonneg; lia. }
  seal Hub. seal Hprod.
  assert (Hdig : 53 <= digits (Z.pos mx * Z.pos my) \/ ex + ey = -1074).
  { destruct (Z.eq_dec ex (-1074)) as [E1|N1].
    - destruct (Z.eq_dec ey (-1074)) as [E2|N2]; [lia|].
      left. assert (D : digits (Z.pos my) = 53) by lia.
      pose proof (digits_pos_spec (Z.pos my) ltac:(lia)) as [L _]. rewrite D in L.
      change (53 - 1) with 52 in L.
      pose proof (digits_ge_pow (Z.pos mx * Z.pos my) 52 ltac:(lia)
                    (le_mul_one (Z.pos mx) (Z.pos my) (2 ^ 52) ltac:(lia) ltac:(lia))). lia.
    - left. assert (D : digits (Z.pos mx) = 53) by lia.
      pose proof (digits_pos_spec (Z.pos mx) ltac:(lia)) as [L _]. rewrite D in L.
      change (53 - 1) with 52 in L.
      rewrite Z.mul_comm.
      pose proof (digits_ge_pow (Z.pos my * Z.pos mx) 52 ltac:(lia)
                    (le_mul_one (Z.pos my) (Z.pos mx) (2 ^ 52) ltac:(lia) ltac:(lia))). lia. }
  rewrite binary_round_aux_exact;
    [|lia|lia|rewrite fexp_eq; lia|unseal Hub; exact Hub].
  assert (HRN : RN (Z.pos mx * 2 ^ (ex + 1074) * (Z.pos my * 2 ^ (ey + 1074))) (2 ^ 1074)
                = RN (Z.pos mx * Z.pos my * 2 ^ (ex + ey + 1074)) 1).
  { unseal Hprod. rewrite <- Hprod.
    rewrite <- (RN_scale (Z.pos mx * Z.pos my * 2 ^ (ex + ey + 1074)) 1 (2 ^ 1074));
      [|lia|apply Z.pow_pos_nonneg; lia].
    rewrite Z.mul_1_l. reflexivity. }
  rewrite HRN.
  pose proof (SF_of_val_RN false (Z.pos mx * Z.pos my * 2 ^ (ex + ey + 1074)) 1) as H.
  cbn [cond_Zopp] in H. apply H; [apply Z.mul_nonneg_nonneg; [lia|apply Z.pow_nonneg; lia]|lia|rewrite Z.mul_1_l; unseal Hub; exact Hub].
Qed.

Lemma compare_fval x y :
  finite x -> finite y ->
  SFcompare (Prim2SF x) (Prim2SF y) = Some (fval x ?= fval y).
Proof. intros Fx Fy. apply SFcompare_val; auto using Prim2SF_valid. Qed.

Lemma leb_fval x y :
  finite x -> finite y -> PrimFloat.leb x y = (fval x <=? fval y).
Proof.
  intros Fx Fy. rewrite FloatAxioms.leb_spec. unfold SFleb. rewrite compare_fval by assumption.
  unfold Z.leb. destruct (fval x ?= fval y); reflexivity.
Qed.

Lemma ltb_fval x y :
  finite x -> finite y -> PrimFloat.ltb x y = (fval x <? fval y).
Proof.
  intros Fx Fy. rewrite FloatAxioms.ltb_spec. unfold SFltb. rewrite compare_fval by assumption.
  unfold Z.ltb. destruct (fval x ?= fval y); reflexivity.
Qed.

Lemma eqb_fval x y :
  finite x -> finite y -> PrimFloat.eqb x y = (fval x =? fval y).
Proof.
  intros Fx Fy. rewrite FloatAxioms.eqb_spec. unfold SFeqb. rewrite compare_fval by assumption.
  destruct (Z.compare_spec (fval x) (fval y)), (Z.eqb_spec (fval x) (fval y));
    try reflexivity; lia.
Qed.

(** A float between two finite floats is finite. *)
Lemma between_finite a b x :
  finite a -> finite b ->
  PrimFloat.leb a x = true -> PrimFloat.leb x b = true ->
  finite x /\ fval a <= fval x <= fval b.
Proof.
  intros Fa Fb H1 H2.
  assert (Fx : finite x).
  { unfold finite in *. rewrite FloatAxioms.leb_spec in H1, H2. unfold SFleb in *.
    destruct (Prim2SF x) as [s|s| |s m e]; try reflexivity.
    - destruct s.
      + destruct (Prim2SF a) as [sa|sa| |sa ma ea]; try discriminate.
      + destruct (Prim2SF b) as [sb|sb| |sb mb eb]; try discriminate.
    - destruct (Prim2SF a) as [sa|sa| |sa ma ea]; try discriminate. }
  split; [exact Fx|].
  rewrite leb_fval in H1, H2 by assumption.
  apply Z.leb_le in H1. apply Z.leb_le in H2. lia.
Qed.

Lemma add_fval x y :
  finite x -> finite y -> Z.abs (fval x + fval y) < 2 ^ 2097 ->
  finite (x + y) /\ fval (x + y) = RNs (fval x + fval y).
Proof.
  intros Fx Fy Hb. unfold finite, fval. rewrite add_spec.
  destruct (SFadd_val (Prim2SF x) (Prim2SF y)) as (H1 & H2 & H3);
    auto using Prim2SF_valid.
Qed.

Lemma sub_fval x y :
  finite x -> finite y -> Z.abs (fval x - fval y) < 2 ^ 2097 ->
  finite (x - y) /\ fval (x - y) = RNs (fval x - fval y).
Proof.
  intros Fx Fy Hb. unfold finite, fval. rewrite sub_spec.
  destruct (SFsub_val (Prim2SF x) (Prim2SF y)) as (H1 & H2 & H3);
    auto using Prim2SF_valid.
Qed.

Lemma mul_fval x y :
  0 < fval x -> 0 < fval y -> 2 ^ 1179 <= fval x * fval y < 2 ^ 3171 ->
  finite (x * y) /\ fval (x * y) = RN (fval x * fval y) (2 ^ 1074).
Proof.
  intros Px Py Hb. unfold finite, fval. rewrite mul_spec.
  destruct (SFmul_val (Prim2SF x) (Prim2SF y)) as (H1 & H2 & H3);
    auto using Prim2SF_valid.
Qed.

Lemma RNs_pos z : 0 <= z -> RNs z = RN z 1.
Proof.
  intros H. unfold RNs. destruct (Z.eq_dec z 0).
  - subst. rewrite RN_0 by lia. reflexivity.
  - rewrite Z.sgn_pos, Z.abs_eq by lia. lia.
Qed.

Lemma RN_nonneg a b : 0 <= a -> 0 < b -> 0 <= RN a b.
Proof.
  intros Ha Hb. destruct (RN_representable a b Ha Hb) as (k & r & Hv & Hk & Hr & _).
  rewrite Hv. apply Z.mul_nonneg_nonneg; [apply Z.pow_nonneg|]; lia.
Qed.

Lemma round_val_mono nd v1 v2 :
  0 <= v1 -> v1 <= v2 -> round_val nd v1 <= round_val nd v2.
Proof.
  intros H0 H. unfold round_val, round_val_at.
  assert (Pp : 0 < 10 ^ Z.of_N nd) by (apply Z.pow_pos_nonneg; lia).
  assert (P : 0 < 2 ^ 1074) by (apply Z.pow_pos_nonneg; lia).
  assert (M : rne_div (v1 * 10 ^ Z.of_N nd) (2 ^ 1074) <= rne_div (v2 * 10 ^ Z.of_N nd) (2 ^ 1074))
    by (apply rne_div_mono; nia).
  assert (Z0 : 0 <= rne_div (v1 * 10 ^ Z.of_N nd) (2 ^ 1074)).
  { pose proof (rne_div_bounds (v1 * 10 ^ Z.of_N nd) (2 ^ 1074) P).
    assert (0 <= v1 * 10 ^ Z.of_N nd / 2 ^ 1074) by (apply Z.div_pos; nia). lia. }
  apply RN_mono; nia.
Qed.

Lemma rne_div_times a b : 0 <= a -> 0 < b -> 0 <= rne_div a b /\ rne_div a b * b <= a + b.
Proof.
  intros Ha Hb. pose proof (rne_div_bounds a b Hb) as B.
  pose proof (Z.div_pos a b Ha Hb). pose proof (Z.mul_div_le a b Hb). nia.
Qed.

Lemma round_bound v p n U B :
  0 < U -> U <= B -> 1 <= p -> 0 < v < B -> 0 <= n -> n * U <= v * p + U ->
  n * U < p * (2 * B).
Proof. intros. nia. Qed.

Lemma round_ndigits_fval x nd :
  finite x -> 0 < fval x < 2 ^ 2096 ->
  finite (round_ndigits x nd) /\ fval (round_ndigits x nd) = round_val nd (fval x).
Proof.
  intros Fx [Hpos Hub]. unfold finite, fval, round_ndigits, round_val, round_val_at in *.
  pose proof (Prim2SF_valid x) as V.
  destruct (Prim2SF x) as [s| | |s m e]; try discriminate;
    try (exfalso; exact (Z.lt_irrefl _ Hpos)).
  destruct s.
  { exfalso. cbn [SFval cond_Zopp] in Hpos.
    pose proof (posval_bounds _ _ _ V) as [[A _] _]. clear Hub. lia. }
  cbn [SFval cond_Zopp] in *.
  set (p := 10 ^ Z.of_N nd).
  assert (Pp : 1 <= p) by (clear Hub; pose proof (Z.pow_pos_nonneg 10 (Z.of_N nd)); lia).
  assert (P : 0 < 2 ^ 1074) by (apply Z.pow_pos_nonneg; clear; lia).
  replace (Z.pos m * p * 2 ^ (e + 1074)) with (Z.pos m * 2 ^ (e + 1074) * p) by ring.
  set (v := Z.pos m * 2 ^ (e + 1074)) in *.
  assert (Hvp : 0 <= v * p) by (clear Hub P; nia).
  destruct (rne_div_times (v * p) (2 ^ 1074) Hvp P) as [N0 N1].
  set (n := rne_div (v * p) (2 ^ 1074)) in *.
  assert (Hlt : n * 2 ^ 1074 < p * 2 ^ 2097).
  { change (2 ^ 2097) with (2 ^ (1 + 2096)). rewrite (pow2_split 1 2096) by (clear; lia).
    change (2 ^ 1) with 2.
    apply (round_bound v p n (2 ^ 1074) (2 ^ 2096)); try assumption.
    - apply Z.pow_le_mono_r; clear; lia.
    - split; assumption. }
  destruct (SF_of_val_RN false (n * 2 ^ 1074) p) as (H1 & H2 & H3).
  - apply Z.mul_nonneg_nonneg; [exact N0|apply Z.lt_le_incl; exact P].
  - clear - Pp. lia.
  - exact Hlt.
  - rewrite Prim2SF_SF2Prim by exact H2.
    split; [exact H3|exact H1].
Qed.

Lemma int_of_float_fval x :
  finite x -> 0 <= fval x ->
  int_of_float x = inr (fval x / 2 ^ 1074) /\
  floor_of_float x = inr (fval x / 2 ^ 1074).
Proof.
  intros Fx H0. unfold finite, fval, int_of_float, floor_of_float in *.
  pose proof (Prim2SF_valid x) as V.
  destruct (Prim2SF x) as [s| | |s m e]; try discriminate.
  - split; reflexivity.
  - pose proof (posval_bounds _ _ _ V) as [[A _] _].
    pose proof (valid_finite_inv _ _ _ V) as [E _].
    destruct s; [cbn [SFval cond_Zopp] in H0; lia|].
    cbn [SFval cond_Zopp].
    assert (P : 0 < 2 ^ 1074) by (apply Z.pow_pos_nonneg; lia).
    assert (S : Z.shiftl (Z.pos m) e = Z.pos m * 2 ^ (e + 1074) / 2 ^ 1074).
    { destruct (Z_le_gt_dec 0 e) as [Ge|Lt].
      - rewrite Z.shiftl_mul_pow2 by lia.
        rewrite (pow2_split e 1074), Z.mul_assoc, Z.div_mul by lia. reflexivity.
      - rewrite Z.shiftl_div_pow2 by lia.
        replace 1074 with (e + 1074 + - e) at 2 by lia.
        rewrite (pow2_split (e + 1074) (- e)) by lia.
        assert (0 < 2 ^ (e + 1074)) by (apply Z.pow_pos_nonneg; lia).
        assert (0 < 2 ^ (- e)) by (apply Z.pow_pos_nonneg; lia).
        rewrite (Z.mul_comm (2 ^ (e + 1074)) (2 ^ (- e))).
        rewrite Z.div_mul_cancel_r by lia. reflexivity. }
    rewrite S. split; reflexivity.
Qed.

Lemma truediv_nonzero x y :
  finite y -> fval y <> 0 -> truediv x y = inr (x / y)%float.
Proof.
  intros Fy H. unfold truediv.
  assert (F0 : finite 0%float) by reflexivity.
  rewrite (eqb_fval y 0 Fy F0). change (fval 0%float) with 0.
  destruct (Z.eqb_spec (fval y) 0); [contradiction|reflexivity].
Qed.

(** ** Changing the unit

    A quotient with 53 bits or more is rounded the same way whatever the
    unit: the rounding commutes with the multiplication by a power of two. *)

Lemma RN_shift a b d :
  0 <= a -> 0 < b -> 0 <= d -> 53 <= digits (a / b) ->
  RN (a * 2 ^ d) b = 2 ^ d * RN a b.
Proof.
  intros Ha Hb Hd Hn.
  assert (Pd : 0 < 2 ^ d) by (apply Z.pow_pos_nonneg; lia).
  assert (Hq : 0 < a / b).
  { destruct (Z.eq_dec (a / b) 0) as [E|E]; [rewrite E in Hn; simpl in Hn; lia|].
    pose proof (Z.div_pos a b Ha Hb). lia. }
  pose proof (digits_pos_spec (a / b) Hq) as [L U].
  remember (digits (a / b)) as n eqn:En.
  pose proof (Z.mul_div_le a b Hb) as Q1.
  assert (Q2 : a < b * (a / b) + b).
  { pose proof (Z.mod_pos_bound a b Hb). pose proof (Z.div_mod a b ltac:(lia)). lia. }
  assert (P1 : 0 < 2 ^ (n - 1)) by (apply Z.pow_pos_nonneg; lia).
  assert (D : digits (a * 2 ^ d / b) = n + d).
  { apply digits_unique.
    - apply Z.div_str_pos. nia.
    - split.
      + apply Z.div_le_lower_bound; [lia|].
        replace (n + d - 1) with ((n - 1) + d) by lia. rewrite Z.pow_add_r by lia.
        assert (b * 2 ^ (n - 1) <= a) by nia.
        rewrite Z.mul_assoc. apply Z.mul_le_mono_nonneg_r; lia.
      + apply Z.div_lt_upper_bound; [lia|]. rewrite Z.pow_add_r by lia.
        assert (a < b * 2 ^ n) by nia.
        rewrite Z.mul_assoc. apply Z.mul_lt_mono_pos_r; lia. }
  unfold RN. rewrite D, <- En.
  replace (Z.max 0 (n + d - 53)) with ((n - 53) + d) by lia.
  replace (Z.max 0 (n - 53)) with (n - 53) by lia.
  rewrite Z.pow_add_r by lia.
  assert (Pk : 0 < 2 ^ (n - 53)) by (apply Z.pow_pos_nonneg; lia).
  replace (b * (2 ^ (n - 53) * 2 ^ d)) with (b * 2 ^ (n - 53) * 2 ^ d) by ring.
  rewrite rne_div_scale by nia. ring.
Qed.

Lemma rne_div_nonneg a b : 0 <= a -> 0 < b -> 0 <= rne_div a b.
Proof.
  intros Ha Hb. pose proof (rne_div_bounds a b Hb). pose proof (Z.div_pos a b Ha Hb). lia.
Qed.

Lemma round_val_at_mono j nd v1 v2 :
  0 <= j -> 0 <= v1 -> v1 <= v2 -> round_val_at j nd v1 <= round_val_at j nd v2.
Proof.
  intros Hj H0 H. unfold round_val_at.
  assert (Pp : 0 < 10 ^ Z.of_N nd) by (apply Z.pow_pos_nonneg; lia).
  assert (P : 0 < 2 ^ j) by (apply Z.pow_pos_nonneg; lia).
  assert (M : rne_div (v1 * 10 ^ Z.of_N nd) (2 ^ j) <= rne_div (v2 * 10 ^ Z.of_N nd) (2 ^ j))
    by (apply rne_div_mono; nia).
  pose proof (rne_div_nonneg (v1 * 10 ^ Z.of_N nd) (2 ^ j) ltac:(nia) P).
  apply RN_mono; nia.
Qed.

Lemma round_digits_mono j nd v1 v2 :
  0 <= j -> 0 <= v1 -> v1 <= v2 -> round_digits j nd v1 <= round_digits j nd v2.
Proof.
  intros Hj H0 H. unfold round_digits.
  assert (Pp : 0 < 10 ^ Z.of_N nd) by (apply Z.pow_pos_nonneg; lia).
  assert (P : 0 < 2 ^ j) by (apply Z.pow_pos_nonneg; lia).
  assert (M : rne_div (v1 * 10 ^ Z.of_N nd) (2 ^ j) <= rne_div (v2 * 10 ^ Z.of_N nd) (2 ^ j))
    by (apply rne_div_mono; nia).
  pose proof (rne_div_nonneg (v1 * 10 ^ Z.of_N nd) (2 ^ j) ltac:(nia) P).
  apply digits_mono.
  - apply Z.div_pos; nia.
  - apply Z.div_le_mono; nia.
Qed.

Lemma round_val_at_shift j d nd w :
  0 <= j -> 0 <= d -> 0 <= w -> 53 <= round_digits j nd w ->
  round_val_at (j + d) nd (w * 2 ^ d) = 2 ^ d * round_val_at j nd w.
Proof.
  intros Hj Hd Hw Hn. unfold round_val_at, round_digits in *.
  set (p := 10 ^ Z.of_N nd) in *.
  assert (Pp : 0 < p) by (apply Z.pow_pos_nonneg; lia).
  assert (P : 0 < 2 ^ j) by (apply Z.pow_pos_nonneg; lia).
  assert (Pd : 0 < 2 ^ d) by (apply Z.pow_pos_nonneg; lia).
  rewrite Z.pow_add_r by lia.
  replace (w * 2 ^ d * p) with (w * p * 2 ^ d) by ring.
  rewrite rne_div_scale by lia.
  pose proof (rne_div_nonneg (w * p) (2 ^ j) ltac:(nia) P) as N0.
  set (n := rne_div (w * p) (2 ^ j)) in *.
  replace (n * (2 ^ j * 2 ^ d)) with (n * 2 ^ j * 2 ^ d) by ring.
  apply RN_shift; try lia; try nia.
Qed.

Lemma mul_val_at_mono j c v1 v2 :
  0 <= j -> 0 <= c -> 0 <= v1 -> v1 <= v2 -> mul_val_at j c v1 <= mul_val_at j c v2.
Proof.
  intros Hj Hc H0 H. unfold mul_val_at.
  apply RN_mono; [apply Z.pow_pos_nonneg; lia|nia|nia].
Qed.

Lemma mul_val_at_nonneg j c v : 0 <= j -> 0 <= c -> 0 <= v -> 0 <= mul_val_at j c v.
Proof. intros. apply RN_nonneg; [nia|apply Z.pow_pos_nonneg; lia]. Qed.

Lemma mul_val_at_shift j d c w :
  0 <= j -> 0 <= d -> 0 <= c -> 0 <= w -> 2 ^ (52 + j) <= w * c ->
  mul_val_at (j + d) (c * 2 ^ d) (w * 2 ^ d) = 2 ^ d * mul_val_at j c w.
Proof.
  intros Hj Hd Hc Hw H. unfold mul_val_at.
  assert (P : 0 < 2 ^ j) by (apply Z.pow_pos_nonneg; lia).
  assert (Pd : 0 < 2 ^ d) by (apply Z.pow_pos_nonneg; lia).
  rewrite Z.pow_add_r by lia.
  replace (w * 2 ^ d * (c * 2 ^ d)) with (w * c * 2 ^ d * 2 ^ d) by ring.
  rewrite RN_scale by lia.
  apply RN_shift; try lia; try nia.
  assert (2 ^ 52 <= w * c / 2 ^ j).
  { apply Z.div_le_lower_bound; [lia|]. rewrite <- Z.pow_add_r by lia.
    replace (j + 52) with (52 + j) by lia. exact H. }
  pose proof (digits_ge_pow (w * c / 2 ^ j) 52 ltac:(lia) H0). lia.
Qed.

(** ** Values in units of [2^-64] *)

Lemma shift_pos : 0 < 2 ^ shift.
Proof. apply Z.pow_pos_nonneg; [reflexivity|discriminate]. Qed.

Lemma scaled_fval x :
  scaled x = true -> finite x /\ fval x = sval x * 2 ^ shift /\ 0 < sval x.
Proof.
  unfold scaled, sval, fval, finite.
  destruct (Prim2SF x) as [s|s| |s m e]; try discriminate.
  destruct s; try discriminate. intros H. apply Z.leb_le in H.
  cbn [SFval cond_Zopp SF_is_finite].
  assert (P : 0 < 2 ^ (e + 64)) by (apply Z.pow_pos_nonneg; lia).
  split; [reflexivity|]. split; [|lia].
  replace (e + 1074) with (e + 64 + shift) by (unfold shift; lia).
  rewrite (Z.pow_add_r 2 (e + 64) shift) by (unfold shift; lia). ring.
Qed.

(** A float that is large enough is a multiple of [2^-(1074-d)]. *)
Lemma fval_multiple x d :
  finite x -> 0 <= d -> 2 ^ (d + 53) <= fval x -> exists w, fval x = w * 2 ^ d.
Proof.
  intros F Hd H. unfold finite, fval in *. pose proof (Prim2SF_valid x) as V.
  assert (P : 0 < 2 ^ (d + 53)) by (apply Z.pow_pos_nonneg; lia).
  destruct (Prim2SF x) as [s|s| |s m e]; cbn [SFval] in H |- *; try lia.
  pose proof (posval_bounds _ _ _ V) as [[A B] _].
  destruct s; cbn [cond_Zopp] in H |- *; [lia|].
  assert (d + 53 < e + 1127).
  { destruct (Z_lt_le_dec (d + 53) (e + 1127)); [lia|].
    assert (2 ^ (e + 1127) <= 2 ^ (d + 53)) by (apply Z.pow_le_mono_r; lia). lia. }
  exists (Zpos m * 2 ^ (e + 1074 - d)).
  rewrite <- Z.mul_assoc, <- Z.pow_add_r by lia. f_equal. f_equal. lia.
Qed.

Lemma in_range_inv x : in_range x = true -> 2 ^ 116 <= x /\ x < 2 ^ 200.
Proof.
  unfold in_range. intros H. apply andb_prop in H. destruct H as [H1 H2].
  apply Z.leb_le in H1. apply Z.ltb_lt in H2. split; assumption.
Qed.

(** A product of two values in the range of the checks, in units of
    [2^-1074], is in the range in which the float product is exact up to
    the rounding to 53 bits. *)
Lemma range_lift t lo hi :
  in_range lo = true -> in_range hi = true -> lo <= t <= hi ->
  2 ^ 116 <= t /\ 2 ^ 1179 <= t * 2 ^ shift * 2 ^ shift < 2 ^ 3171.
Proof.
  intros Hlo Hhi [L U].
  destruct (in_range_inv _ Hlo) as [L1 _]. destruct (in_range_inv _ Hhi) as [_ U1].
  pose proof (Z.le_trans _ _ _ L1 L) as Lt. pose proof (Z.le_lt_trans _ _ _ U U1) as Ut.
  split; [exact Lt|].
  rewrite <- Z.mul_assoc, <- (Z.pow_add_r 2 shift shift) by discriminate.
  change (shift + shift) with 2020.
  assert (P : 0 < 2 ^ 2020) by (apply Z.pow_pos_nonneg; [reflexivity|discriminate]).
  split.
  - apply Z.le_trans with (2 ^ 116 * 2 ^ 2020).
    + rewrite <- Z.pow_add_r by discriminate. apply Z.pow_le_mono_r; [reflexivity|discriminate].
    + apply Z.mul_le_mono_nonneg_r; [apply Z.lt_le_incl; exact P|exact Lt].
  - apply Z.lt_le_trans with (2 ^ 200 * 2 ^ 2020).
    + apply Z.mul_lt_mono_pos_r; [exact P|exact Ut].
    + rewrite <- Z.pow_add_r by discriminate. apply Z.pow_le_mono_r; [reflexivity|discriminate].
Qed.

(** A value below [2^200] in units of [2^-64] is below [2^2096] in units
    of [2^-1074]. *)
Lemma below_lift w : 0 < w -> w < 2 ^ 200 -> 0 < w * 2 ^ shift < 2 ^ 2096.
Proof.
  intros H0 H. pose proof shift_pos as P. split.
  - apply Z.mul_pos_pos; assumption.
  - apply Z.lt_le_trans with (2 ^ 200 * 2 ^ shift).
    + apply Z.mul_lt_mono_pos_r; assumption.
    + rewrite <- Z.pow_add_r by discriminate. apply Z.pow_le_mono_r; [reflexivity|discriminate].
Qed.

End FloatFacts.

(** ** The brackets of the price table *)

Module BracketFacts.
Import Rounding PyFloat Py Bracket PyData Random Routes FloatFacts.
Local Open Scope Z_scope.

Lemma Zleb_true a b : (a <=? b) = true -> a <= b.
Proof. apply Z.leb_le. Qed.
Lemma Zltb_true a b : (a <? b) = true -> a < b.
Proof. apply Z.ltb_lt. Qed.

Lemma covered_sound fuel (f g : Z -> Z) :
  (forall x y, 0 <= x -> x <= y -> f x <= f y) ->
  (forall x y, 0 <= x -> x <= y -> g x <= g y) ->
  forall a hi, 0 <= a -> covered fuel f g a hi = true ->
  forall v, a <= v <= hi -> g v < f v.
Proof.
  intros Mf Mg. induction fuel as [|k IH]; intros a hi Ha H v Hv; [discriminate|].
  cbn [covered] in H.
  destruct (Z.leb_spec hi (a + a / 64 + 1)) as [Le|Gt].
  - apply Zltb_true in H.
    pose proof (Mg v hi ltac:(lia) ltac:(lia)). pose proof (Mf a v Ha ltac:(lia)). lia.
  - apply andb_prop in H. destruct H as [H1 H2]. apply Zltb_true in H1.
    assert (0 <= a / 64) by (apply Z.div_pos; lia).
    destruct (Z_le_gt_dec v (a + a / 64 + 1)) as [Lv|Gv].
    + pose proof (Mg v _ ltac:(lia) Lv). pose proof (Mf a v Ha ltac:(lia)). lia.
    + apply (IH (a + a / 64 + 1) hi); [lia|exact H2|lia].
Qed.

Lemma finite_const_1 : finite (float_of_int 1). Proof. reflexivity. Qed.

Lemma one_plus_range u :
  PrimFloat.leb (- 0.02) u = true -> PrimFloat.leb u 0.02 = true ->
  finite (float_of_int 1 + u) /\
  one_plus_lo <= fval (float_of_int 1 + u) <= one_plus_hi.
Proof.
  intros H1 H2.
  destruct (between_finite (- 0.02) 0.02 u) as [Fu [L H]]; try assumption; try reflexivity.
  assert (A : 0 <= v_one + fval (- 0.02)%float) by (apply Zleb_true; vm_compute; reflexivity).
  assert (B : v_one + fval 0.02%float < 2 ^ 2097) by (apply Zltb_true; vm_compute; reflexivity).
  destruct (add_fval (float_of_int 1) u finite_const_1 Fu) as [F V].
  { fold v_one. lia. }
  split; [exact F|]. rewrite V. fold v_one. rewrite RNs_pos by lia.
  unfold one_plus_lo, one_plus_hi. split; apply RN_mono; lia.
Qed.

(** The bounds of [1 + u] in units of [2^-64]. *)
Lemma one_plus_scaled :
  one_plus_lo = s_lo * 2 ^ shift /\ one_plus_hi = s_hi * 2 ^ shift /\ 2 ^ 53 <= s_lo.
Proof.
  assert (A : v_one + fval (- 0.02)%float
              = (sval (float_of_int 1) - sval 0.02%float) * 2 ^ shift)
    by (vm_compute; reflexivity).
  assert (B : v_one + fval 0.02%float
              = (sval (float_of_int 1) + sval 0.02%float) * 2 ^ shift)
    by (vm_compute; reflexivity).
  unfold one_plus_lo, one_plus_hi, s_lo, s_hi. rewrite A, B.
  split; [|split].
  - rewrite (RN_shift (sval (float_of_int 1) - sval 0.02%float) 1 shift).
    + apply Z.mul_comm.
    + apply Zleb_true. vm_compute. reflexivity.
    + reflexivity.
    + discriminate.
    + apply Zleb_true. vm_compute. reflexivity.
  - rewrite (RN_shift (sval (float_of_int 1) + sval 0.02%float) 1 shift).
    + apply Z.mul_comm.
    + apply Zleb_true. vm_compute. reflexivity.
    + reflexivity.
    + discriminate.
    + apply Zleb_true. vm_compute. reflexivity.
  - apply Zleb_true. vm_compute. reflexivity.
Qed.

(** The product of a float [x] that is a multiple of [2^-64] and of a float
    [y] of value [w] in that unit. *)
Lemma scaled_mul x y w wl wh :
  scaled x = true -> fval y = w * 2 ^ shift -> wl <= w <= wh -> 0 < wl ->
  in_range (wl * sval x) = true -> in_range (wh * sval x) = true ->
  finite (x * y) /\ finite (y * x) /\
  fval (x * y) = smul (sval x) w * 2 ^ shift /\
  fval (y * x) = smul (sval x) w * 2 ^ shift /\
  smul (sval x) wl <= smul (sval x) w <= smul (sval x) wh.
Proof.
  intros Sx Vy [L U] Pl Rl Rh.
  destruct (scaled_fval x Sx) as (Fx & Vx & Px).
  pose proof shift_pos as P.
  assert (M : wl * sval x <= w * sval x <= wh * sval x).
  { split; apply Z.mul_le_mono_nonneg_r; lia. }
  destruct (range_lift _ _ _ Rl Rh M) as [R0 R]. clear Rl Rh. seal R. seal R0.
  assert (E : fval y * fval x = w * sval x * 2 ^ shift * 2 ^ shift) by (rewrite Vx, Vy; ring).
  assert (Pw : 0 < w) by lia.
  assert (Py : 0 < fval y) by (rewrite Vy; apply Z.mul_pos_pos; assumption).
  assert (Pxv : 0 < fval x) by (rewrite Vx; apply Z.mul_pos_pos; assumption).
  assert (R1 : 2 ^ 1179 <= fval y * fval x < 2 ^ 3171) by (rewrite E; exact R).
  assert (R2 : 2 ^ 1179 <= fval x * fval y < 2 ^ 3171) by (rewrite Z.mul_comm; exact R1).
  destruct (mul_fval x y Pxv Py R2) as [F1 V1].
  destruct (mul_fval y x Py Pxv R1) as [F2 V2].
  clear R1 R2.
  assert (S : RN (fval y * fval x) (2 ^ 1074) = smul (sval x) w * 2 ^ shift).
  { rewrite Vx, Vy. unfold smul.
    change (RN (w * 2 ^ shift * (sval x * 2 ^ shift)) (2 ^ 1074))
      with (mul_val_at (64 + shift) (sval x * 2 ^ shift) (w * 2 ^ shift)).
    rewrite mul_val_at_shift; [apply Z.mul_comm|discriminate|discriminate|lia|lia|].
    unseal R0. exact R0. }
  split; [exact F1|]. split; [exact F2|].
  split; [rewrite V1, Z.mul_comm; exact S|]. split; [rewrite V2; exact S|].
  unfold smul. split; apply mul_val_at_mono; lia.
Qed.

(** The rounding to four places of a float of value [w] in units of
    [2^-64], for [w] between checked bounds. *)
Lemma scaled_round x w lo hi :
  finite x -> fval x = w * 2 ^ shift -> lo <= w <= hi -> roundable lo hi = true ->
  finite (round_ndigits x 4) /\ fval (round_ndigits x 4) = sround w * 2 ^ shift.
Proof.
  intros Fx Vx [L U] H. unfold roundable in H.
  apply andb_prop in H. destruct H as [H H3]. apply andb_prop in H. destruct H as [H1 H2].
  apply Zltb_true in H1. apply Zltb_true in H2. apply Zleb_true in H3.
  assert (Pw : 0 < w) by lia.
  assert (Uw : w < 2 ^ 200) by (eapply Z.le_lt_trans; [exact U|exact H2]).
  pose proof (below_lift w Pw Uw) as B. rewrite <- Vx in B. clear H2 Uw.
  destruct (round_ndigits_fval x 4 Fx B) as [F V]. clear B.
  split; [exact F|]. rewrite V, Vx. unfold sround.
  change (round_val 4 (w * 2 ^ shift)) with (round_val_at (64 + shift) 4 (w * 2 ^ shift)).
  rewrite round_val_at_shift; [apply Z.mul_comm|discriminate|discriminate|lia|].
  pose proof (round_digits_mono 64 4 lo w ltac:(lia) ltac:(lia) L). lia.
Qed.

Lemma sround_mono x y : 0 <= x -> x <= y -> sround x <= sround y.
Proof. intros. apply round_val_at_mono; lia. Qed.

Lemma sround_smul_mono c :
  0 <= c -> forall x y, 0 <= x -> x <= y -> sround (smul c x) <= sround (smul c y).
Proof.
  intros Hc x y Hx Hxy. apply sround_mono.
  - apply mul_val_at_nonneg; lia.
  - apply mul_val_at_mono; lia.
Qed.

Lemma roundable_pos lo hi : roundable lo hi = true -> 0 < lo.
Proof.
  unfold roundable. intros H.
  apply andb_prop in H. destruct H as [H _]. apply andb_prop in H. destruct H as [H _].
  apply Zltb_true in H. exact H.
Qed.

(** The rounded value of [price * c] for a checked factor [c]. *)
Lemma scaled_price_val price c w wl wh :
  finite price -> fval price = w * 2 ^ shift -> wl <= w <= wh -> 0 < wl ->
  factor_ok wl wh c = true ->
  0 < sval c /\
  finite (round_ndigits (price * c) 4) /\
  fval (round_ndigits (price * c) 4) = sround (smul (sval c) w) * 2 ^ shift.
Proof.
  intros Fp Vp Hw Pl H. unfold factor_ok in H.
  apply andb_prop in H. destruct H as [H R4]. apply andb_prop in H. destruct H as [H R3].
  apply andb_prop in H. destruct H as [R1 R2].
  destruct (scaled_fval c R1) as (_ & _ & Pc).
  destruct (scaled_mul c price w wl wh R1 Vp Hw Pl R2 R3) as (_ & F & _ & V & B).
  destruct (scaled_round (price * c) (smul (sval c) w) _ _ F V B R4) as [F' V'].
  split; [exact Pc|]. split; [exact F'|exact V'].
Qed.

Lemma price_bracket b u :
  base_ok b = true ->
  PrimFloat.leb (- 0.02) u = true -> PrimFloat.leb u 0.02 = true ->
  let price := (b * (float_of_int 1 + u))%float in
  let r4 x := round_ndigits x 4 in
  finite price /\ 0 < fval price /\
  PrimFloat.ltb (r4 price) (r4 (price * 1.03)%float) = true /\
  PrimFloat.ltb (r4 (price * 0.94)%float) (r4 price) = true /\
  PrimFloat.ltb (r4 (price * 0.97)%float) (r4 price) = true /\
  PrimFloat.ltb (r4 price) (r4 (price * 1.06)%float) = true.
Proof.
  intros Hok Hu1 Hu2 price r4.
  destruct (one_plus_range u Hu1 Hu2) as [Fw Hw].
  destruct one_plus_scaled as (Elo & Ehi & Blo).
  pose proof shift_pos as P.
  rewrite Elo, Ehi in Hw. destruct Hw as [Hw1 Hw2].
  destruct (fval_multiple (float_of_int 1 + u) shift Fw ltac:(discriminate)) as [w1 V1].
  { eapply Z.le_trans; [|exact Hw1].
    rewrite (Z.add_comm shift 53), Z.pow_add_r by discriminate.
    apply Z.mul_le_mono_nonneg_r; [apply Z.lt_le_incl; exact P|exact Blo]. }
  rewrite V1 in Hw1, Hw2.
  apply Z.mul_le_mono_pos_r in Hw1; [|exact P].
  apply Z.mul_le_mono_pos_r in Hw2; [|exact P].
  assert (Pslo : 0 < s_lo).
  { eapply Z.lt_le_trans; [|exact Blo]. reflexivity. }
  clear Elo Ehi Blo.
  unfold base_ok in Hok. cbv zeta in Hok.
  set (wb := sval b) in *.
  set (wl := smul wb s_lo) in *.
  set (wh := smul wb s_hi) in *.
  repeat (apply andb_prop in Hok; destruct Hok as [Hok ?]).
  cbn [forallb] in H3.
  repeat (apply andb_prop in H3; destruct H3 as [? H3]). clear H3.
  destruct (scaled_mul b (float_of_int 1 + u) w1 s_lo s_hi Hok V1 (conj Hw1 Hw2) Pslo H6 H5)
    as (Fp & _ & Vp & _ & Hp).
  fold price in Fp, Vp. fold wb wl wh in Hp.
  set (w := smul wb w1) in *.
  pose proof (roundable_pos _ _ H4) as Pl.
  assert (Ppos : 0 < fval price).
  { rewrite Vp. apply Z.mul_pos_pos; [|exact P].
    eapply Z.lt_le_trans; [exact Pl|exact (proj1 Hp)]. }
  destruct (scaled_round price w wl wh Fp Vp Hp H4) as [Fr Vr].
  destruct (scaled_price_val price 1.03 w wl wh Fp Vp Hp Pl H7) as (C103 & F103 & V103).
  destruct (scaled_price_val price 0.94 w wl wh Fp Vp Hp Pl H8) as (C094 & F094 & V094).
  destruct (scaled_price_val price 0.97 w wl wh Fp Vp Hp Pl H9) as (C097 & F097 & V097).
  destruct (scaled_price_val price 1.06 w wl wh Fp Vp Hp Pl H10) as (C106 & F106 & V106).
  split; [exact Fp|]. split; [exact Ppos|].
  unfold r4. rewrite !ltb_fval by assumption.
  rewrite V103, V094, V097, V106, Vr.
  repeat split; apply Z.ltb_lt; apply Z.mul_lt_mono_pos_r; try exact P.
  - apply (covered_sound 16 (fun v => sround (smul (sval 1.03) v)) sround)
      with (a := wl) (hi := wh); try assumption; try lia.
    + apply sround_smul_mono. lia.
    + apply sround_mono.
  - apply (covered_sound 16 sround (fun v => sround (smul (sval 0.94) v)))
      with (a := wl) (hi := wh); try assumption; try lia.
    + apply sround_mono.
    + apply sround_smul_mono. lia.
  - apply (covered_sound 16 sround (fun v => sround (smul (sval 0.97) v)))
      with (a := wl) (hi := wh); try assumption; try lia.
    + apply sround_mono.
    + apply sround_smul_mono. lia.
  - apply (covered_sound 16 (fun v => sround (smul (sval 1.06) v)) sround)
      with (a := wl) (hi := wh); try assumption; try lia.
    + apply sround_smul_mono. lia.
    + apply sround_mono.
Qed.

Lemma base_prices_ok :
  forallb (fun sb => base_ok (as_float (snd sb))) base_prices = true.
Proof. vm_compute. reflexivity. Qed.

End BracketFacts.

(** ** The generator and the handler *)

Module RoutesFacts.
Import Rounding PyFloat Py Bracket PyData Random Routes FloatFacts BracketFacts.
Local Open Scope Z_scope.

(** The leverage of a confidence drawn between 85 and 98. *)
Lemma truncated_confidence c :
  PrimFloat.leb (float_of_int 85) c = true ->
  PrimFloat.leb c (float_of_int 98) = true ->
  exists k,
    int_of_float (c - float_of_int 85) = inr k /\
    floor_of_float (c - float_of_int 85) = inr k /\
    0 <= k <= 13.
Proof.
  intros H1 H2.
  destruct (between_finite (float_of_int 85) (float_of_int 98) c) as [Fc [L H]];
    try assumption; try reflexivity.
  set (v85 := fval (float_of_int 85)) in *.
  set (v98 := fval (float_of_int 98)) in *.
  assert (A : 0 <= v85) by (apply Zleb_true; vm_compute; reflexivity).
  assert (B : v98 < 2 ^ 2097) by (apply Zltb_true; vm_compute; reflexivity).
  assert (C : RN (v98 - v85) 1 = 13 * 2 ^ 1074) by (vm_compute; reflexivity).
  destruct (sub_fval c (float_of_int 85) Fc) as [F V]; [reflexivity|fold v85; lia|].
  fold v85 in V. rewrite RNs_pos in V by lia.
  assert (V0 : 0 <= fval (c - float_of_int 85)).
  { rewrite V. apply RN_nonneg; lia. }
  assert (V1 : fval (c - float_of_int 85) <= 13 * 2 ^ 1074).
  { rewrite V, <- C. apply RN_mono; lia. }
  destruct (int_of_float_fval _ F V0) as [I Fl].
  exists (fval (c - float_of_int 85) / 2 ^ 1074).
  split; [exact I|]. split; [exact Fl|].
  assert (P : 0 < 2 ^ 1074) by (apply Z.pow_pos_nonneg; lia).
  split; [apply Z.div_pos; lia|].
  apply Z.div_le_upper_bound; lia.
Qed.

Lemma risk_ratio : truediv 50.0 (float_of_int 100) = inr 0.5%float.
Proof. vm_compute. reflexivity. Qed.

Lemma risk_share : truediv 50.0 (float_of_int 500) = inr 0.1%float.
Proof. vm_compute. reflexivity. Qed.

Lemma position_value_250 : (500.0 * 0.5 = 250.0)%float.
Proof. vm_compute. reflexivity. Qed.

Lemma make_signal_ok i symbol price c action k :
  int_of_float (c - float_of_int 85) = inr k ->
  finite price -> fval price <> 0 ->
  make_signal i symbol price c action
  = inr (signal_dict i symbol action c price
           (price * stop_loss_factor action) (price * take_profit_factor action)
           (Z.min (8 + k) 15) (quantity symbol price (Z.min (8 + k) 15))
           50.0 0.1 250.0).
Proof.
  intros Hk Fp Np. unfold make_signal. rewrite Hk, risk_ratio, risk_share.
  cbv zeta. rewrite position_value_250. unfold quantity.
  rewrite !truediv_nonzero by assumption.
  destruct (String.eqb symbol "BTC"); [reflexivity|].
  destruct (String.eqb symbol "ETH"); reflexivity.
Qed.

Section Run.

Context {G : Type} (rs : source G).
Hypothesis WB : well_behaved rs.

Lemma choice_ok g :
  choice rs ["BUY"; "SELL"]%string g
  = (inr (nth (Z.to_nat (fst (randbelow rs 2 g))) ["BUY"; "SELL"]%string "SELL"%string),
     snd (randbelow rs 2 g)).
Proof.
  pose proof (choice_in_range rs WB g) as R.
  unfold choice, bind, draw, lift. cbn [List.length Z.of_nat Pos.of_succ_nat Pos.succ].
  destruct (randbelow rs 2 g) as [k g']. cbn [fst snd] in *.
  assert (k = 0 \/ k = 1) as [-> | ->] by lia; reflexivity.
Qed.

Lemma iteration_ok i symbol base g :
  getitem base_prices symbol = inr base ->
  base_ok (as_float base) = true ->
  exists v,
    iteration rs i symbol g = (inr v, after_iteration rs i g) /\
    produced rs i symbol base g v.
Proof.
  intros Hbase Hok.
  pose proof (price_in_range rs WB g) as [U1 U2].
  pose proof (confidence_in_range rs WB (after_price rs g)) as [C1 C2].
  fold (price_draw rs g) in U1, U2. fold (confidence_draw rs g) in C1, C2.
  destruct (price_bracket (as_float base) (price_draw rs g) Hok U1 U2) as (Fp & Pp & _).
  fold (price_of rs base g) in Fp, Pp.
  destruct (truncated_confidence _ C1 C2) as (k & Hk & _ & _).
  exists (signal_dict i symbol (drawn_action rs i g) (confidence_draw rs g)
            (price_of rs base g)
            (price_of rs base g * stop_loss_factor (drawn_action rs i g))
            (price_of rs base g * take_profit_factor (drawn_action rs i g))
            (Z.min (8 + k) 15)
            (quantity symbol (price_of rs base g) (Z.min (8 + k) 15))
            50.0 0.1 250.0).
  split.
  - unfold iteration, bind at 1. unfold lift at 1. rewrite Hbase.
    unfold bind at 1. unfold draw at 1.
    rewrite (surjective_pairing (uniform rs (- 0.02) 0.02 g)).
    fold (price_draw rs g) (after_price rs g).
    unfold bind at 1. unfold draw at 1.
    rewrite (surjective_pairing (uniform rs (float_of_int 85) (float_of_int 98) (after_price rs g))).
    fold (confidence_draw rs g) (after_confidence rs g).
    fold (price_of rs base g).
    unfold bind, after_iteration, lift, drawn_action, choice_draw.
    destruct (Z.eqb_spec i 0) as [E|N].
    + unfold ret. rewrite (make_signal_ok _ _ _ _ _ k Hk Fp) by lia. reflexivity.
    + rewrite choice_ok. rewrite (make_signal_ok _ _ _ _ _ k Hk Fp) by lia. reflexivity.
  - exists k. split; [exact Hk|]. cbv zeta. split; [exact Fp|]. split; [exact Pp|].
    reflexivity.
Qed.

Lemma for_each_ok todo : table_ok todo ->
  forall n acc g0,
  exists vs,
    for_each rs (Z.of_nat n) (map fst todo) acc (state_at rs n g0)
    = (inr (acc ++ vs), state_at rs (n + List.length todo) g0) /\
    produced_all rs n todo g0 vs.
Proof.
  induction 1 as [|[symbol base] todo (Hb & Hok) _ IH]; intros n acc g0.
  - exists []. cbn [map for_each List.length]. rewrite app_nil_r, Nat.add_0_r.
    split; [reflexivity|exact I].
  - cbn [fst snd] in *.
    destruct (iteration_ok (Z.of_nat n) symbol base (state_at rs n g0) Hb Hok)
      as (v & Hrun & Hv).
    destruct (IH (S n) (acc ++ [v]) g0) as (vs & Hrest & Hvs).
    exists (v :: vs). split.
    + cbn [map for_each fst]. unfold bind at 1. rewrite Hrun.
      change (after_iteration rs (Z.of_nat n) (state_at rs n g0)) with (state_at rs (S n) g0).
      replace (Z.of_nat n + 1) with (Z.of_nat (S n)) by lia.
      rewrite Hrest. rewrite <- app_assoc. cbn [List.length app].
      rewrite Nat.add_succ_r. reflexivity.
    + cbn [produced_all]. split; assumption.
Qed.

Lemma base_prices_table_ok : table_ok base_prices.
Proof.
  pose proof base_prices_ok as H. unfold table_ok.
  rewrite forallb_forall in H. apply Forall_forall. intros [s b] Hin.
  specialize (H _ Hin). cbn [fst snd] in *.
  split; [|exact H].
  cbn in Hin. repeat (destruct Hin as [Hin|Hin]; [inversion Hin; subst; reflexivity|]).
  contradiction.
Qed.

(** A run of the generator with a well-behaved source succeeds, and its
    signals are those of the six iterations. *)
Lemma generate_ok g0 :
  exists vs,
    generate_mock_signals rs g0 = (inr vs, state_at rs 6 g0) /\
    produced_all rs 0 base_prices g0 vs.
Proof.
  destruct (for_each_ok base_prices base_prices_table_ok 0 [] g0) as (vs & H & P).
  exists vs. split; [|exact P]. exact H.
Qed.

End Run.

Local Open Scope string_scope.
Local Open Scope Z_scope.

Lemma produced_all_nth {G} (rs : source G) g0 todo : forall n vs,
  produced_all rs n todo g0 vs ->
  List.length vs = List.length todo /\
  forall j v, nth_error vs j = Some v ->
    exists symbol base, nth_error todo j = Some (symbol, base) /\
      produced rs (Z.of_nat (n + j)) symbol base (state_at rs (n + j) g0) v.
Proof.
  induction todo as [|[s b] todo IH]; intros n [|v0 vs] H;
    cbn [produced_all] in H; try contradiction.
  - split; [reflexivity|]. intros [|j] v Hj; discriminate.
  - destruct H as [H0 H]. destruct (IH _ _ H) as [L N]. split; [cbn [List.length]; lia|].
    intros [|j] v Hj; cbn [nth_error] in Hj |- *.
    + inversion Hj; subst. exists s, b. rewrite Nat.add_0_r. split; [reflexivity|assumption].
    + destruct (N j v Hj) as (s' & b' & E & P). exists s', b'.
      rewrite Nat.add_succ_r. split; assumption.
Qed.

Lemma table_entry n symbol base :
  nth_error base_prices n = Some (symbol, base) ->
  base_ok (as_float base) = true.
Proof.
  intros H. apply nth_error_In in H.
  pose proof base_prices_table_ok as T. unfold table_ok in T.
  rewrite Forall_forall in T. destruct (T _ H) as (_ & K). exact K.
Qed.

Section Runs.

Context {G : Type} (rs : source G).
Hypothesis WB : well_behaved rs.

(** A run with a well-behaved source returns six signals, the [n]-th the
    one produced by iteration [n] for the [n]-th entry of the price table. *)
Lemma run_ok g0 :
  exists signals,
    generate_mock_signals rs g0 = (inr signals, state_at rs 6 g0) /\
    List.length signals = 6%nat /\
    forall n v, nth_error signals n = Some v ->
      exists symbol base,
        nth_error base_prices n = Some (symbol, base) /\
        produced rs (Z.of_nat n) symbol base (state_at rs n g0) v.
Proof.
  destruct (generate_ok rs WB g0) as (vs & H & P).
  destruct (produced_all_nth rs g0 base_prices 0 vs P) as [L N].
  exists vs. split; [exact H|]. split; [exact L|]. exact N.
Qed.

(** The stop and the target of an iteration are on the two sides of the
    entry, after rounding. *)
Lemma iteration_bracket n symbol base g :
  nth_error base_prices n = Some (symbol, base) ->
  let price := price_of rs base g in
  let r4 x := round_ndigits x 4 in
  PrimFloat.ltb (r4 price) (r4 (price * 1.03)%float) = true /\
  PrimFloat.ltb (r4 (price * 0.94)%float) (r4 price) = true /\
  PrimFloat.ltb (r4 (price * 0.97)%float) (r4 price) = true /\
  PrimFloat.ltb (r4 price) (r4 (price * 1.06)%float) = true.
Proof.
  intros H. pose proof (table_entry _ _ _ H) as K.
  destruct (price_in_range rs WB g) as [U1 U2].
  destruct (price_bracket (as_float base) (price_draw rs g) K U1 U2) as (_ & _ & R).
  exact R.
Qed.

End Runs.

Lemma quantity_cases symbol price leverage :
  quantity symbol price leverage
  = if (symbol =? "BTC")%string || (symbol =? "ETH")%string
    then (250.0 / price)%float
    else ((250.0 * float_of_int leverage) / price)%float.
Proof.
  unfold quantity. destruct (symbol =? "BTC")%string, (symbol =? "ETH")%string; reflexivity.
Qed.

Lemma drawn_action_cases {G} (rs : source G) (WB : well_behaved rs) i g :
  drawn_action rs i g = "SELL" \/ drawn_action rs i g = "BUY".
Proof.
  unfold drawn_action. destruct (i =? 0); [left; reflexivity|].
  pose proof (choice_in_range rs WB (after_confidence rs g)) as R.
  fold (choice_draw rs g) in R.
  assert (choice_draw rs g = 0 \/ choice_draw rs g = 1) as [-> | ->] by lia;
    [right|left]; reflexivity.
Qed.

(** The test source keeps the promises of the library. *)
Lemma tape_uniform_in_range a b :
  forallb (fun k => let x := (a + (b - a) * (float_of_int k / 8))%float in
                    PrimFloat.leb a x && PrimFloat.leb x b)
          [0; 1; 2; 3; 4; 5; 6; 7] = true ->
  uniform_in_range tape a b.
Proof.
  intros H g. cbn [uniform tape fst].
  pose proof (Z.mod_pos_bound (hd 0 g) 8 ltac:(lia)) as B.
  set (k := hd 0 g mod 8) in *.
  rewrite forallb_forall in H.
  assert (I : In k [0; 1; 2; 3; 4; 5; 6; 7]) by (cbn [In]; lia).
  specialize (H k I). cbv zeta in H. apply andb_prop in H. exact H.
Qed.

Lemma tape_well_behaved : well_behaved tape.
Proof.
  split.
  - apply tape_uniform_in_range. vm_compute. reflexivity.
  - apply tape_uniform_in_range. vm_compute. reflexivity.
  - intros g. cbn [randbelow tape fst]. apply Z.mod_pos_bound. lia.
Qed.

Ltac signal_of H :=
  let k := fresh "k" in
  let Hk := fresh "Hk" in
  let Fp := fresh "Fp" in
  let Pp := fresh "Pp" in
  let E := fresh "E" in
  destruct H as (k & Hk & H); cbv zeta in H; destruct H as (Fp & Pp & E).

Section Fields.

Variables (i : Z) (symbol action : string).
Variables (confidence price stop_loss take_profit : float) (leverage : Z).
Variables (qty risk_amount share position_value : float).

Let signal := signal_dict i symbol action confidence price stop_loss take_profit
                leverage qty risk_amount share position_value.

Lemma get_action : get "action" signal = Some (VStr action).
Proof. reflexivity. Qed.

Lemma get_is_primary_trade : get "is_primary_trade" signal = Some (VBool (i =? 0)).
Proof. reflexivity. Qed.

Lemma get_trade_label :
  get "trade_label" signal = Some (VStr (if i =? 0 then "YOUR TRADE" else "ALTERNATIVE")).
Proof. reflexivity. Qed.

Lemma get_entry_price :
  get "entry_price" signal = Some (VFloat (round_ndigits price 4)).
Proof. reflexivity. Qed.

Lemma get_symbol : get "symbol" signal = Some (VStr symbol).
Proof. reflexivity. Qed.

Lemma get_stop_loss :
  get "stop_loss" signal = Some (VFloat (round_ndigits stop_loss 4)).
Proof. reflexivity. Qed.

Lemma get_take_profit :
  get "take_profit" signal = Some (VFloat (round_ndigits take_profit 4)).
Proof. reflexivity. Qed.

Lemma get_qty :
  get_path ["bybit_settings"; "qty"] signal
  = Some (VStr (str_of_float (round_ndigits qty 4))).
Proof. reflexivity. Qed.

Lemma get_stopLoss :
  get_path ["bybit_settings"; "stopLoss"] signal
  = Some (VStr (str_of_float (round_ndigits stop_loss 4))).
Proof. reflexivity. Qed.

Lemma get_takeProfit :
  get_path ["bybit_settings"; "takeProfit"] signal
  = Some (VStr (str_of_float (round_ndigits take_profit 4))).
Proof. reflexivity. Qed.

End Fields.

Lemma produced_all_entries {G} (rs : source G) g0 todo : forall n vs,
  produced_all rs n todo g0 vs ->
  map (get "entry_price") vs = entry_prices rs n todo g0.
Proof.
  induction todo as [|[s b] todo IH]; intros n [|v0 vs] H;
    cbn [produced_all] in H; try contradiction; [reflexivity|].
  destruct H as [H0 H]. cbn [map entry_prices]. rewrite (IH _ _ H).
  signal_of H0. subst v0. reflexivity.
Qed.

(** The entry prices of a run are the rounded prices of its iterations. *)
Lemma entry_prices_ok {G} (rs : source G) (WB : well_behaved rs) g0 :
  exists signals,
    fst (generate_mock_signals rs g0) = inr signals /\
    map (get "entry_price") signals = entry_prices rs 0 base_prices g0.
Proof.
  destruct (generate_ok rs WB g0) as (vs & H & P).
  exists vs. rewrite H. split; [reflexivity|]. apply produced_all_entries. exact P.
Qed.

Section Claims.

Context {G : Type} (rs : source G).
Hypothesis WB : well_behaved rs.

(** C1. For every random source keeping the promises of the library and
    every seed, [generate_mock_signals] returns, without raising, exactly six
    signals whose [symbol] fields are, in this order, ADA, BTC, ETH, SOL,
    LINK, AVAX: the signal at each position carries the symbol of the list
    at that position. *)
Theorem six_signals_in_symbol_order (g0 : G) :
  exists signals,
    fst (generate_mock_signals rs g0) = inr signals /\
    List.length signals = 6%nat /\
    map (get "symbol") signals
    = [Some (VStr "ADA"); Some (VStr "BTC"); Some (VStr "ETH");
       Some (VStr "SOL"); Some (VStr "LINK"); Some (VStr "AVAX")] /\
    forall n v, nth_error signals n = Some v ->
      exists symbol, nth_error symbols n = Some symbol /\
                     get "symbol" v = Some (VStr symbol).
Proof.
  destruct (run_ok rs WB g0) as (signals & H & L & N).
  exists signals. rewrite H. split; [reflexivity|]. split; [exact L|].
  assert (P : forall n v, nth_error signals n = Some v ->
            exists symbol, nth_error symbols n = Some symbol /\
                           get "symbol" v = Some (VStr symbol)).
  { intros n v Hn. destruct (N n v Hn) as (symbol & base & Hb & Hp).
    signal_of Hp. exists symbol. split; [|subst v; reflexivity].
    change symbols with (map fst base_prices).
    rewrite nth_error_map, Hb. reflexivity. }
  split; [|exact P].
  destruct signals as [|v0 [|v1 [|v2 [|v3 [|v4 [|v5 [|]]]]]]]; try discriminate L.
  destruct (P 0%nat v0 eq_refl) as (s0 & S0 & E0).
  destruct (P 1%nat v1 eq_refl) as (s1 & S1 & E1).
  destruct (P 2%nat v2 eq_refl) as (s2 & S2 & E2).
  destruct (P 3%nat v3 eq_refl) as (s3 & S3 & E3).
  destruct (P 4%nat v4 eq_refl) as (s4 & S4 & E4).
  destruct (P 5%nat v5 eq_refl) as (s5 & S5 & E5).
  cbn [map]. rewrite E0, E1, E2, E3, E4, E5.
  cbn in S0, S1, S2, S3, S4, S5.
  congruence.
Qed.

(** C2. In a run, the signal at index 0 is the only one marked primary: it
    has [is_primary_trade] true, the label YOUR TRADE and the action SELL,
    whatever the draws; every other signal has [is_primary_trade] false, the
    label ALTERNATIVE, and as action the element of [BUY, SELL] picked by
    the draw [_randbelow(2)] of [random.choice] (0 gives BUY, 1 gives SELL),
    so that the action is as uniform as that draw is. *)
Theorem primary_is_first_and_sells (g0 : G) :
  exists signals,
    fst (generate_mock_signals rs g0) = inr signals /\
    List.length signals = 6%nat /\
    forall n v, nth_error signals n = Some v ->
      (n = 0%nat ->
         get "is_primary_trade" v = Some (VBool true) /\
         get "trade_label" v = Some (VStr "YOUR TRADE") /\
         get "action" v = Some (VStr "SELL")) /\
      (n <> 0%nat ->
         get "is_primary_trade" v = Some (VBool false) /\
         get "trade_label" v = Some (VStr "ALTERNATIVE") /\
         let k := choice_draw rs (state_at rs n g0) in
         (k = 0 \/ k = 1) /\
         get "action" v = Some (VStr (if k =? 0 then "BUY" else "SELL"))).
Proof.
  destruct (run_ok rs WB g0) as (signals & H & L & N).
  exists signals. rewrite H. split; [reflexivity|]. split; [exact L|].
  intros n v Hn. destruct (N n v Hn) as (symbol & base & Hb & Hp).
  signal_of Hp. subst v. split.
  - intros ->. repeat split.
  - intros Hn0.
    assert ((Z.of_nat n =? 0) = false) as Hz by (apply Z.eqb_neq; lia).
    pose proof (choice_in_range rs WB (after_confidence rs (state_at rs n g0))) as R.
    fold (choice_draw rs (state_at rs n g0)) in R.
    rewrite get_is_primary_trade, get_trade_label, get_action.
    unfold drawn_action. rewrite Hz. cbv zeta.
    assert (choice_draw rs (state_at rs n g0) = 0 \/ choice_draw rs (state_at rs n g0) = 1)
      as C by lia.
    repeat split; try exact C.
    destruct C as [-> | ->]; reflexivity.
Qed.

(** C3. In a run, the confidence drawn by an iteration lies between 85 and
    98 (the end point 98 included, which the library does not exclude), the
    floor of [confidence - 85] is an integer [k], and the signal's
    [leverage] is [min(8 + k, 15)], an integer between 8 and 15; the
    execution block carries the same leverage as a string. *)
Theorem leverage_from_confidence (g0 : G) :
  exists signals,
    fst (generate_mock_signals rs g0) = inr signals /\
    forall n v, nth_error signals n = Some v ->
      let confidence := confidence_draw rs (state_at rs n g0) in
      PrimFloat.leb (float_of_int 85) confidence = true /\
      PrimFloat.leb confidence (float_of_int 98) = true /\
      exists k,
        floor_of_float (confidence - float_of_int 85) = inr k /\
        get "leverage" v = Some (VInt (Z.min (8 + k) 15)) /\
        get_path ["bybit_settings"; "leverage"] v
        = Some (VStr (str_of_int (Z.min (8 + k) 15))) /\
        8 <= Z.min (8 + k) 15 <= 15.
Proof.
  destruct (run_ok rs WB g0) as (signals & H & L & N).
  exists signals. rewrite H. split; [reflexivity|].
  intros n v Hn confidence. destruct (N n v Hn) as (symbol & base & Hb & Hp).
  signal_of Hp. subst v.
  destruct (confidence_in_range rs WB (after_price rs (state_at rs n g0))) as [C1 C2].
  fold (confidence_draw rs (state_at rs n g0)) in C1, C2. fold confidence in C1, C2, Hk.
  destruct (truncated_confidence confidence C1 C2) as (k' & I & F & B).
  assert (k' = k) by congruence. subst k'.
  split; [exact C1|]. split; [exact C2|].
  exists k. split; [exact F|]. split; [reflexivity|]. split; [reflexivity|]. lia.
Qed.

(** C4. In a run, the position value is 250.0 and the quantity of a signal
    is computed from the unrounded price of its iteration: [250.0 / price]
    when the symbol is BTC or ETH, [(250.0 * leverage) / price] for the
    other symbols, with the leverage of the signal; the division does not
    raise, and the signal carries the quantity rounded to 4 places, as a
    string. *)
Theorem quantity_by_symbol (g0 : G) :
  exists signals,
    fst (generate_mock_signals rs g0) = inr signals /\
    forall n v, nth_error signals n = Some v ->
      exists symbol base leverage,
        nth_error base_prices n = Some (symbol, base) /\
        get "symbol" v = Some (VStr symbol) /\
        get "leverage" v = Some (VInt leverage) /\
        let price := price_of rs base (state_at rs n g0) in
        let position_value := 250.0%float in
        let dividend :=
          if (symbol =? "BTC")%string || (symbol =? "ETH")%string
          then position_value
          else (position_value * float_of_int leverage)%float in
        get "entry_price" v = Some (VFloat (round_ndigits price 4)) /\
        get_path ["bybit_settings"; "risk_management"; "margin_required_usd"] v
        = Some (VStr (str_of_float (round_ndigits position_value 2))) /\
        truediv dividend price = inr (dividend / price)%float /\
        get_path ["bybit_settings"; "qty"] v
        = Some (VStr (str_of_float (round_ndigits (dividend / price) 4))).
Proof.
  destruct (run_ok rs WB g0) as (signals & H & L & N).
  exists signals. rewrite H. split; [reflexivity|].
  intros n v Hn. destruct (N n v Hn) as (symbol & base & Hb & Hp).
  signal_of Hp. subst v.
  exists symbol, base, (Z.min (8 + k) 15).
  split; [exact Hb|]. split; [reflexivity|]. split; [reflexivity|].
  cbv zeta. split; [reflexivity|]. split; [reflexivity|].
  split; [apply truediv_nonzero; [exact Fp|lia]|].
  rewrite quantity_cases.
  destruct ((symbol =? "BTC")%string || (symbol =? "ETH")%string); reflexivity.
Qed.

(** C5. In a run, the stop and the target of a signal are the unrounded
    price of its iteration times the multipliers of its action (SELL: 1.03
    and 0.94; BUY: 0.97 and 1.06), rounded to 4 places as the entry is; and
    the rounded fields are strictly ordered: for SELL the stop is above the
    entry and the target below, for BUY the stop is below the entry and the
    target above. *)
Theorem stops_bracket_entry (g0 : G) :
  exists signals,
    fst (generate_mock_signals rs g0) = inr signals /\
    forall n v, nth_error signals n = Some v ->
      exists symbol base action entry stop target,
        nth_error base_prices n = Some (symbol, base) /\
        get "action" v = Some (VStr action) /\
        get "entry_price" v = Some (VFloat entry) /\
        get "stop_loss" v = Some (VFloat stop) /\
        get "take_profit" v = Some (VFloat target) /\
        let price := price_of rs base (state_at rs n g0) in
        entry = round_ndigits price 4 /\
        (action = "SELL" \/ action = "BUY") /\
        (action = "SELL" ->
           stop = round_ndigits (price * 1.03) 4 /\
           target = round_ndigits (price * 0.94) 4 /\
           PrimFloat.ltb entry stop = true /\ PrimFloat.ltb target entry = true) /\
        (action = "BUY" ->
           stop = round_ndigits (price * 0.97) 4 /\
           target = round_ndigits (price * 1.06) 4 /\
           PrimFloat.ltb stop entry = true /\ PrimFloat.ltb entry target = true).
Proof.
  destruct (run_ok rs WB g0) as (signals & H & L & N).
  exists signals. rewrite H. split; [reflexivity|].
  intros n v Hn. destruct (N n v Hn) as (symbol & base & Hb & Hp).
  signal_of Hp. subst v.
  destruct (iteration_bracket rs WB n symbol base (state_at rs n g0) Hb)
    as (B1 & B2 & B3 & B4).
  set (price := price_of rs base (state_at rs n g0)) in *.
  set (action := drawn_action rs (Z.of_nat n) (state_at rs n g0)).
  exists symbol, base, action, (round_ndigits price 4),
    (round_ndigits (price * stop_loss_factor action) 4),
    (round_ndigits (price * take_profit_factor action) 4).
  split; [exact Hb|]. do 4 (split; [reflexivity|]).
  cbv zeta. split; [reflexivity|].
  split; [apply (drawn_action_cases rs WB)|].
  split; intros ->; repeat split; assumption.
Qed.

(** C8. In a run, every signal has numbers at the top level for
    [confidence], [entry_price], [stop_loss] and [take_profit] (floats, the
    roundings of the iteration's values) and [leverage] (an int), and
    strings in the execution block [bybit_settings] for [qty], [leverage],
    [stopLoss], [takeProfit] and, in its [risk_management] part, for
    [risk_amount_usd], [risk_percentage], [position_value_usd] and
    [margin_required_usd]. *)
Theorem numbers_outside_strings_inside (g0 : G) :
  exists signals,
    fst (generate_mock_signals rs g0) = inr signals /\
    forall n v, nth_error signals n = Some v ->
      (exists confidence entry stop target leverage,
         get "confidence" v = Some (VFloat confidence) /\
         confidence = round_ndigits (confidence_draw rs (state_at rs n g0)) 2 /\
         get "entry_price" v = Some (VFloat entry) /\
         get "stop_loss" v = Some (VFloat stop) /\
         get "take_profit" v = Some (VFloat target) /\
         get "leverage" v = Some (VInt leverage)) /\
      forallb (fun key => match get key v with
                          | Some x => is_number x
                          | None => false
                          end)
        ["confidence"; "entry_price"; "stop_loss"; "take_profit"; "leverage"] = true /\
      forallb (fun path => match get_path ("bybit_settings" :: path) v with
                           | Some x => is_str x
                           | None => false
                           end)
        [["qty"]; ["leverage"]; ["stopLoss"]; ["takeProfit"];
         ["risk_management"; "risk_amount_usd"];
         ["risk_management"; "risk_percentage"];
         ["risk_management"; "position_value_usd"];
         ["risk_management"; "margin_required_usd"]] = true.
Proof.
  destruct (run_ok rs WB g0) as (signals & H & L & N).
  exists signals. rewrite H. split; [reflexivity|].
  intros n v Hn. destruct (N n v Hn) as (symbol & base & Hb & Hp).
  signal_of Hp. subst v. split; [|split; reflexivity].
  do 5 eexists. repeat split.
Qed.

(** C10. In a run, every signal carries the same constants, whatever its
    symbol and the draws: [expected_return] 6.0, [risk_reward_ratio] 2.0,
    [time_horizon] 4H, [strategy_basis] Momentum Volume Analysis and, in
    [bybit_settings], the symbol followed by USDT, the order type Market,
    GTC, the margin mode isolated and, in its [risk_management] part, the
    risk amount 50.0 and the risk percentage 10.0%. *)
Theorem constant_fields (g0 : G) :
  exists signals,
    fst (generate_mock_signals rs g0) = inr signals /\
    forall n v, nth_error signals n = Some v ->
      exists symbol,
        get "symbol" v = Some (VStr symbol) /\
        get "expected_return" v = Some (VFloat 6.0) /\
        get "risk_reward_ratio" v = Some (VFloat 2.0) /\
        get "time_horizon" v = Some (VStr "4H") /\
        get "strategy_basis" v = Some (VStr "Momentum Volume Analysis") /\
        get_path ["bybit_settings"; "symbol"] v = Some (VStr (symbol ++ "USDT")) /\
        get_path ["bybit_settings"; "orderType"] v = Some (VStr "Market") /\
        get_path ["bybit_settings"; "timeInForce"] v = Some (VStr "GTC") /\
        get_path ["bybit_settings"; "marginMode"] v = Some (VStr "isolated") /\
        get_path ["bybit_settings"; "risk_management"; "risk_amount_usd"] v
        = Some (VStr "50.0") /\
        get_path ["bybit_settings"; "risk_management"; "risk_percentage"] v
        = Some (VStr "10.0%").
Proof.
  destruct (run_ok rs WB g0) as (signals & H & L & N).
  exists signals. rewrite H. split; [reflexivity|].
  intros n v Hn. destruct (N n v Hn) as (symbol & base & Hb & Hp).
  signal_of Hp. subst v. exists symbol.
  do 9 (split; [reflexivity|]).
  split; [vm_compute; reflexivity|].
  vm_compute. reflexivity.
Qed.

End Claims.

Section BitcoinExample.

Context {G : Type} (rs : source G).
Hypothesis WB : well_behaved rs.

(** C7. In a run where the price draw of the BTC iteration (index 1) makes
    the factor [1 + u] exactly 1.0 and the choice of that iteration is SELL,
    the price is 67000.0 and the BTC signal has the entry 67000.0, the stop
    69010.0, the target 62980.0 and, as quantity, [250.0 / 67000] (0.003731
    to six places), emitted rounded to 4 places as the string 0.0037. *)
Theorem bitcoin_example (g0 : G) :
  (float_of_int 1 + price_draw rs (state_at rs 1 g0))%float = float_of_int 1 ->
  choice_draw rs (state_at rs 1 g0) = 1 ->
  exists signals v,
    fst (generate_mock_signals rs g0) = inr signals /\
    nth_error signals 1 = Some v /\
    price_of rs (Int 67000) (state_at rs 1 g0) = 67000.0%float /\
    get "symbol" v = Some (VStr "BTC") /\
    get "action" v = Some (VStr "SELL") /\
    get "entry_price" v = Some (VFloat 67000.0) /\
    get "stop_loss" v = Some (VFloat 69010.0) /\
    get "take_profit" v = Some (VFloat 62980.0) /\
    round_ndigits (250.0 / 67000.0) 6 = 0.003731%float /\
    get_path ["bybit_settings"; "qty"] v = Some (VStr "0.0037") /\
    get_path ["bybit_settings"; "stopLoss"] v = Some (VStr "69010.0") /\
    get_path ["bybit_settings"; "takeProfit"] v = Some (VStr "62980.0").
Proof.
  intros Hu Hc.
  destruct (run_ok rs WB g0) as (signals & H & L & N).
  destruct signals as [|v0 [|v signals]]; try discriminate L.
  exists (v0 :: v :: signals), v. rewrite H. split; [reflexivity|]. split; [reflexivity|].
  destruct (N 1%nat v eq_refl) as (symbol & base & Hb & Hp).
  cbn in Hb. inversion Hb; subst symbol base. clear Hb.
  signal_of Hp.
  assert (P : price_of rs (Int 67000) (state_at rs 1 g0) = 67000.0%float).
  { unfold price_of. rewrite Hu. vm_compute. reflexivity. }
  assert (A : drawn_action rs (Z.of_nat 1) (state_at rs 1 g0) = "SELL").
  { unfold drawn_action. rewrite Hc. reflexivity. }
  rewrite P, A in E. subst v.
  split; [exact P|].
  rewrite get_symbol, get_action, get_entry_price, get_stop_loss, get_take_profit,
    get_qty, get_stopLoss, get_takeProfit.
  unfold quantity. cbn [String.eqb Ascii.eqb Bool.eqb stop_loss_factor take_profit_factor].
  change (stop_loss_factor "SELL") with 1.03%float.
  change (take_profit_factor "SELL") with 0.94%float.
  assert (R0 : round_ndigits 67000.0 4 = 67000.0%float) by (vm_compute; reflexivity).
  assert (R1 : round_ndigits (67000.0 * 1.03) 4 = 69010.0%float) by (vm_compute; reflexivity).
  assert (R2 : round_ndigits (67000.0 * 0.94) 4 = 62980.0%float) by (vm_compute; reflexivity).
  assert (R3 : round_ndigits (250.0 / 67000.0) 4 = 0.0037%float) by (vm_compute; reflexivity).
  rewrite R0, R1, R2, R3.
  do 5 (split; [reflexivity|]).
  split; [vm_compute; reflexivity|].
  repeat split; vm_compute; reflexivity.
Qed.

End BitcoinExample.

(** C6 (as the code has it). Two runs, whatever their sources and seeds,
    return six signals each, which agree position by position on [symbol],
    [is_primary_trade] and [trade_label]; the [entry_price] at a position is
    a function of the price draw of that position alone, so two runs whose
    price draws coincide at a position have the same [entry_price] there,
    different seeds or not. *)
Theorem runs_agree_on_structure {G1 G2 : Type} (rs1 : source G1) (rs2 : source G2)
    (WB1 : well_behaved rs1) (WB2 : well_behaved rs2) (g1 : G1) (g2 : G2) :
  exists signals1 signals2,
    fst (generate_mock_signals rs1 g1) = inr signals1 /\
    fst (generate_mock_signals rs2 g2) = inr signals2 /\
    List.length signals1 = 6%nat /\ List.length signals2 = 6%nat /\
    forall n v1 v2, nth_error signals1 n = Some v1 -> nth_error signals2 n = Some v2 ->
      (exists symbol primary label,
         get "symbol" v1 = Some (VStr symbol) /\ get "symbol" v2 = Some (VStr symbol) /\
         get "is_primary_trade" v1 = Some (VBool primary) /\
         get "is_primary_trade" v2 = Some (VBool primary) /\
         get "trade_label" v1 = Some (VStr label) /\
         get "trade_label" v2 = Some (VStr label)) /\
      (price_draw rs1 (state_at rs1 n g1) = price_draw rs2 (state_at rs2 n g2) ->
       get "entry_price" v1 = get "entry_price" v2).
Proof.
  destruct (run_ok rs1 WB1 g1) as (s1 & H1 & L1 & N1).
  destruct (run_ok rs2 WB2 g2) as (s2 & H2 & L2 & N2).
  exists s1, s2. rewrite H1, H2. split; [reflexivity|]. split; [reflexivity|].
  split; [exact L1|]. split; [exact L2|].
  intros n v1 v2 Hn1 Hn2.
  destruct (N1 n v1 Hn1) as (symbol & base & Hb & Hp1).
  destruct (N2 n v2 Hn2) as (symbol' & base' & Hb' & Hp2).
  assert (symbol' = symbol /\ base' = base) as [-> ->] by (split; congruence).
  signal_of Hp1. signal_of Hp2. subst v1 v2. split.
  - exists symbol, (Z.of_nat n =? 0),
      (if Z.of_nat n =? 0 then "YOUR TRADE" else "ALTERNATIVE").
    repeat split.
  - intros Hd. rewrite !get_entry_price. unfold price_of. rewrite Hd. reflexivity.
Qed.

(** C6 (as the spec has it) fails: two different seeds of the test source,
    which differ in the confidence drawn by the first iteration, give runs
    with the same entry prices at every position. *)
Lemma different_seeds_same_entry_prices :
  seed_a <> seed_b /\
  confidence_draw tape seed_a <> confidence_draw tape seed_b /\
  exists signals1 signals2,
    fst (generate_mock_signals tape seed_a) = inr signals1 /\
    fst (generate_mock_signals tape seed_b) = inr signals2 /\
    map (get "entry_price") signals1
    = [Some (VFloat 0.55); Some (VFloat 67000.0); Some (VFloat 3332.0);
       Some (VFloat 147.175); Some (VFloat 13.134); Some (VFloat 35.6775)] /\
    map (get "entry_price") signals2 = map (get "entry_price") signals1.
Proof.
  split; [discriminate|]. split; [vm_compute; discriminate|].
  destruct (entry_prices_ok tape tape_well_behaved seed_a) as (s1 & H1 & E1).
  destruct (entry_prices_ok tape tape_well_behaved seed_b) as (s2 & H2 & E2).
  exists s1, s2. split; [exact H1|]. split; [exact H2|].
  rewrite E1, E2. split; vm_compute; reflexivity.
Qed.

(** C9. The handler answers with the list the generator returned when it
    returned one, logging nothing; and when the generator raised, whatever
    the exception, with the empty list, logging the exception.  The
    generator's state is left as the run left it. *)
Theorem handler_returns_signals_or_empty {G : Type} (rs : source G) (g : G) :
  match generate_mock_signals rs g with
  | (inr signals, g') =>
      get_trading_signals rs g = ({| json_body := signals |}, [], g')
  | (inl e, g') =>
      get_trading_signals rs g
      = ({| json_body := [] |},
         [{| log_message := "Error getting signals: "; log_exception := e |}], g')
  end.
Proof.
  unfold get_trading_signals.
  destruct (generate_mock_signals rs g) as [[e | signals] g']; reflexivity.
Qed.

(** Both branches of the handler are taken: a source that keeps the
    promises of the library gets the six signals, and the source whose
    draws are all -1 gets the empty list, the division of the quantity by
    the price 0.0 having raised. *)
Lemma handler_answers_six_signals {G : Type} (rs : source G) (g : G) :
  well_behaved rs ->
  List.length (json_body (fst (fst (get_trading_signals rs g)))) = 6%nat /\
  snd (fst (get_trading_signals rs g)) = [].
Proof.
  intros WB. destruct (run_ok rs WB g) as (signals & H & L & _).
  unfold get_trading_signals. rewrite H. split; [exact L|reflexivity].
Qed.

Lemma handler_answers_empty_list :
  fst (generate_mock_signals broken tt) = inl ZeroDivisionError /\
  get_trading_signals broken tt
  = ({| json_body := [] |},
     [{| log_message := "Error getting signals: "; log_exception := ZeroDivisionError |}],
     tt).
Proof. split; vm_compute; reflexivity. Qed.

(** ** The theorems at the test source

    The theorems above assume a source that keeps the promises of the
    library; the test source is one, so each of them holds of the run of the
    test source from the seed [seed_a]. *)

Lemma six_signals_in_symbol_order_witness :
  well_behaved tape /\
  (exists signals,
    fst (generate_mock_signals tape seed_a) = inr signals /\
    List.length signals = 6%nat /\
    map (get "symbol") signals
    = [Some (VStr "ADA"); Some (VStr "BTC"); Some (VStr "ETH");
       Some (VStr "SOL"); Some (VStr "LINK"); Some (VStr "AVAX")] /\
    forall n v, nth_error signals n = Some v ->
      exists symbol, nth_error symbols n = Some symbol /\
                     get "symbol" v = Some (VStr symbol)).
Proof.
  split; [exact tape_well_behaved|].
  exact (six_signals_in_symbol_order tape tape_well_behaved seed_a).
Defined.

Lemma primary_is_first_and_sells_witness :
  well_behaved tape /\
  (exists signals,
    fst (generate_mock_signals tape seed_a) = inr signals /\
    List.length signals = 6%nat /\
    forall n v, nth_error signals n = Some v ->
      (n = 0%nat ->
         get "is_primary_trade" v = Some (VBool true) /\
         get "trade_label" v = Some (VStr "YOUR TRADE") /\
         get "action" v = Some (VStr "SELL")) /\
      (n <> 0%nat ->
         get "is_primary_trade" v = Some (VBool false) /\
         get "trade_label" v = Some (VStr "ALTERNATIVE") /\
         let k := choice_draw tape (state_at tape n seed_a) in
         (k = 0 \/ k = 1) /\
         get "action" v = Some (VStr (if k =? 0 then "BUY" else "SELL")))).
Proof.
  split; [exact tape_well_behaved|].
  exact (primary_is_first_and_sells tape tape_well_behaved seed_a).
Defined.

Lemma leverage_from_confidence_witness :
  well_behaved tape /\
  (exists signals,
    fst (generate_mock_signals tape seed_a) = inr signals /\
    forall n v, nth_error signals n = Some v ->
      let confidence := confidence_draw tape (state_at tape n seed_a) in
      PrimFloat.leb (float_of_int 85) confidence = true /\
      PrimFloat.leb confidence (float_of_int 98) = true /\
      exists k,
        floor_of_float (confidence - float_of_int 85) = inr k /\
        get "leverage" v = Some (VInt (Z.min (8 + k) 15)) /\
        get_path ["bybit_settings"; "leverage"] v
        = Some (VStr (str_of_int (Z.min (8 + k) 15))) /\
        8 <= Z.min (8 + k) 15 <= 15).
Proof.
  split; [exact tape_well_behaved|].
  exact (leverage_from_confidence tape tape_well_behaved seed_a).
Defined.

Lemma quantity_by_symbol_witness :
  well_behaved tape /\
  (exists signals,
    fst (generate_mock_signals tape seed_a) = inr signals /\
    forall n v, nth_error signals n = Some v ->
      exists symbol base leverage,
        nth_error base_prices n = Some (symbol, base) /\
        get "symbol" v = Some (VStr symbol) /\
        get "leverage" v = Some (VInt leverage) /\
        let price := price_of tape base (state_at tape n seed_a) in
        let position_value := 250.0%float in
        let dividend :=
          if (symbol =? "BTC")%string || (symbol =? "ETH")%string
          then position_value
          else (position_value * float_of_int leverage)%float in
        get "entry_price" v = Some (VFloat (round_ndigits price 4)) /\
        get_path ["bybit_settings"; "risk_management"; "margin_required_usd"] v
        = Some (VStr (str_of_float (round_ndigits position_value 2))) /\
        truediv dividend price = inr (dividend / price)%float /\
        get_path ["bybit_settings"; "qty"] v
        = Some (VStr (str_of_float (round_ndigits (dividend / price) 4)))).
Proof.
  split; [exact tape_well_behaved|].
  exact (quantity_by_symbol tape tape_well_behaved seed_a).
Defined.

Lemma stops_bracket_entry_witness :
  well_behaved tape /\
  (exists signals,
    fst (generate_mock_signals tape seed_a) = inr signals /\
    forall n v, nth_error signals n = Some v ->
      exists symbol base action entry stop target,
        nth_error base_prices n = Some (symbol, base) /\
        get "action" v = Some (VStr action) /\
        get "entry_price" v = Some (VFloat entry) /\
        get "stop_loss" v = Some (VFloat stop) /\
        get "take_profit" v = Some (VFloat target) /\
        let price := price_of tape base (state_at tape n seed_a) in
        entry = round_ndigits price 4 /\
        (action = "SELL" \/ action = "BUY") /\
        (action = "SELL" ->
           stop = round_ndigits (price * 1.03) 4 /\
           target = round_ndigits (price * 0.94) 4 /\
           PrimFloat.ltb entry stop = true /\ PrimFloat.ltb target entry = true) /\
        (action = "BUY" ->
           stop = round_ndigits (price * 0.97) 4 /\
           target = round_ndigits (price * 1.06) 4 /\
           PrimFloat.ltb stop entry = true /\ PrimFloat.ltb entry target = true)).
Proof.
  split; [exact tape_well_behaved|].
  exact (stops_bracket_entry tape tape_well_behaved seed_a).
Defined.

Lemma numbers_outside_strings_inside_witness :
  well_behaved tape /\
  (exists signals,
    fst (generate_mock_signals tape seed_a) = inr signals /\
    forall n v, nth_error signals n = Some v ->
      (exists confidence entry stop target leverage,
         get "confidence" v = Some (VFloat confidence) /\
         confidence = round_ndigits (confidence_draw tape (state_at tape n seed_a)) 2 /\
         get "entry_price" v = Some (VFloat entry) /\
         get "stop_loss" v = Some (VFloat stop) /\
         get "take_profit" v = Some (VFloat target) /\
         get "leverage" v = Some (VInt leverage)) /\
      forallb (fun key => match get key v with
                          | Some x => is_number x
                          | None => false
                          end)
        ["confidence"; "entry_price"; "stop_loss"; "take_profit"; "leverage"] = true /\
      forallb (fun path => match get_path ("bybit_settings" :: path) v with
                           | Some x => is_str x
                           | None => false
                           end)
        [["qty"]; ["leverage"]; ["stopLoss"]; ["takeProfit"];
         ["risk_management"; "risk_amount_usd"];
         ["risk_management"; "risk_percentage"];
         ["risk_management"; "position_value_usd"];
         ["risk_management"; "margin_required_usd"]] = true).
Proof.
  split; [exact tape_well_behaved|].
  exact (numbers_outside_strings_inside tape tape_well_behaved seed_a).
Defined.

Lemma constant_fields_witness :
  well_behaved tape /\
  (exists signals,
    fst (generate_mock_signals tape seed_a) = inr signals /\
    forall n v, nth_error signals n = Some v ->
      exists symbol,
        get "symbol" v = Some (VStr symbol) /\
        get "expected_return" v = Some (VFloat 6.0) /\
        get "risk_reward_ratio" v = Some (VFloat 2.0) /\
        get "time_horizon" v = Some (VStr "4H") /\
        get "strategy_basis" v = Some (VStr "Momentum Volume Analysis") /\
        get_path ["bybit_settings"; "symbol"] v = Some (VStr (symbol ++ "USDT")) /\
        get_path ["bybit_settings"; "orderType"] v = Some (VStr "Market") /\
        get_path ["bybit_settings"; "timeInForce"] v = Some (VStr "GTC") /\
        get_path ["bybit_settings"; "marginMode"] v = Some (VStr "isolated") /\
        get_path ["bybit_settings"; "risk_management"; "risk_amount_usd"] v
        = Some (VStr "50.0") /\
        get_path ["bybit_settings"; "risk_management"; "risk_percentage"] v
        = Some (VStr "10.0%")).
Proof.
  split; [exact tape_well_behaved|].
  exact (constant_fields tape tape_well_behaved seed_a).
Defined.

Lemma bitcoin_example_witness :
  well_behaved tape /\
  (float_of_int 1 + price_draw tape (state_at tape 1 seed_a))%float = float_of_int 1 /\
  choice_draw tape (state_at tape 1 seed_a) = 1 /\
  (exists signals v,
    fst (generate_mock_signals tape seed_a) = inr signals /\
    nth_error signals 1 = Some v /\
    price_of tape (Int 67000) (state_at tape 1 seed_a) = 67000.0%float /\
    get "symbol" v = Some (VStr "BTC") /\
    get "action" v = Some (VStr "SELL") /\
    get "entry_price" v = Some (VFloat 67000.0) /\
    get "stop_loss" v = Some (VFloat 69010.0) /\
    get "take_profit" v = Some (VFloat 62980.0) /\
    round_ndigits (250.0 / 67000.0) 6 = 0.003731%float /\
    get_path ["bybit_settings"; "qty"] v = Some (VStr "0.0037") /\
    get_path ["bybit_settings"; "stopLoss"] v = Some (VStr "69010.0") /\
    get_path ["bybit_settings"; "takeProfit"] v = Some (VStr "62980.0")).
Proof.
  assert (H1 : (float_of_int 1 + price_draw tape (state_at tape 1 seed_a))%float = float_of_int 1) by (vm_compute; reflexivity).
  assert (H2 : choice_draw tape (state_at tape 1 seed_a) = 1) by (vm_compute; reflexivity).
  split; [exact tape_well_behaved|]. split; [exact H1|]. split; [exact H2|].
  exact (bitcoin_example tape tape_well_behaved seed_a H1 H2).
Defined.

Lemma runs_agree_on_structure_witness :
  well_behaved tape /\
  (exists signals1 signals2,
    fst (generate_mock_signals tape seed_a) = inr signals1 /\
    fst (generate_mock_signals tape seed_b) = inr signals2 /\
    List.length signals1 = 6%nat /\ List.length signals2 = 6%nat /\
    forall n v1 v2, nth_error signals1 n = Some v1 -> nth_error signals2 n = Some v2 ->
      (exists symbol primary label,
         get "symbol" v1 = Some (VStr symbol) /\ get "symbol" v2 = Some (VStr symbol) /\
         get "is_primary_trade" v1 = Some (VBool primary) /\
         get "is_primary_trade" v2 = Some (VBool primary) /\
         get "trade_label" v1 = Some (VStr label) /\
         get "trade_label" v2 = Some (VStr label)) /\
      (price_draw tape (state_at tape n seed_a) = price_draw tape (state_at tape n seed_b) ->
       get "entry_price" v1 = get "entry_price" v2)).
Proof.
  split; [exact tape_well_behaved|].
  exact (runs_agree_on_structure tape tape tape_well_behaved tape_well_behaved seed_a seed_b).
Defined.

End RoutesFacts.

(** ** More of the generator and of the handler *)

Module RoutesMore.
Import Rounding PyFloat Py Bracket PyData Random Routes.
Import FloatFacts BracketFacts RoutesFacts.
Local Open Scope string_scope.
Local Open Scope Z_scope.

Section MoreFields.

Variables (i : Z) (symbol action : string).
Variables (confidence price stop_loss take_profit : float) (leverage : Z).
Variables (qty risk_amount share position_value : float).

Let signal := signal_dict i symbol action confidence price stop_loss take_profit
                leverage qty risk_amount share position_value.

Lemma get_confidence :
  get "confidence" signal = Some (VFloat (round_ndigits confidence 2)).
Proof. reflexivity. Qed.

Lemma get_leverage : get "leverage" signal = Some (VInt leverage).
Proof. reflexivity. Qed.

Lemma get_side : get_path ["bybit_settings"; "side"] signal = Some (VStr action).
Proof. reflexivity. Qed.

Lemma get_leverage_str :
  get_path ["bybit_settings"; "leverage"] signal = Some (VStr (str_of_int leverage)).
Proof. reflexivity. Qed.

Lemma get_position_value_usd :
  get_path ["bybit_settings"; "risk_management"; "position_value_usd"] signal
  = Some (VStr (str_of_float (round_ndigits (position_value * float_of_int leverage) 2))).
Proof. reflexivity. Qed.

Lemma get_execution_notes :
  get_path ["bybit_settings"; "execution_notes"] signal = Some execution_notes.
Proof. reflexivity. Qed.

Lemma signal_keys :
  keys signal
  = ["symbol"; "action"; "confidence"; "entry_price"; "stop_loss"; "take_profit";
     "leverage"; "expected_return"; "risk_reward_ratio"; "time_horizon";
     "strategy_basis"; "is_primary_trade"; "trade_label"; "bybit_settings"] /\
  option_map keys (get "bybit_settings" signal)
  = Some ["symbol"; "side"; "orderType"; "qty"; "leverage"; "stopLoss"; "takeProfit";
          "timeInForce"; "marginMode"; "risk_management"; "execution_notes"] /\
  option_map keys (get_path ["bybit_settings"; "risk_management"] signal)
  = Some ["risk_amount_usd"; "risk_percentage"; "position_value_usd";
          "margin_required_usd"].
Proof. repeat split. Qed.

End MoreFields.

Section Shape.

Context {G : Type} (rs : source G).
Hypothesis WB : well_behaved rs.

(** X1. The execution block repeats the top-level fields: its side is the
    action, and its leverage, stop and target are the strings of the
    top-level leverage, [stop_loss] and [take_profit]. *)
Theorem execution_block_mirrors_signal (g0 : G) :
  exists signals,
    fst (generate_mock_signals rs g0) = inr signals /\
    forall n v, nth_error signals n = Some v ->
      exists action leverage stop target,
        get "action" v = Some (VStr action) /\
        get_path ["bybit_settings"; "side"] v = Some (VStr action) /\
        get "leverage" v = Some (VInt leverage) /\
        get_path ["bybit_settings"; "leverage"] v = Some (VStr (str_of_int leverage)) /\
        get "stop_loss" v = Some (VFloat stop) /\
        get_path ["bybit_settings"; "stopLoss"] v = Some (VStr (str_of_float stop)) /\
        get "take_profit" v = Some (VFloat target) /\
        get_path ["bybit_settings"; "takeProfit"] v = Some (VStr (str_of_float target)).
Proof.
  destruct (run_ok rs WB g0) as (signals & H & L & N).
  exists signals. rewrite H. split; [reflexivity|].
  intros n v Hn. destruct (N n v Hn) as (symbol & base & Hb & Hp).
  signal_of Hp. subst v.
  do 4 eexists.
  rewrite get_action, get_side, get_leverage, get_leverage_str, get_stop_loss,
    get_stopLoss, get_take_profit, get_takeProfit.
  repeat split.
Qed.

(** X2. The signals have the keys of the dict literal, in its order, and the
    same execution notes. *)
Theorem signal_shape (g0 : G) :
  exists signals,
    fst (generate_mock_signals rs g0) = inr signals /\
    forall n v, nth_error signals n = Some v ->
      keys v
      = ["symbol"; "action"; "confidence"; "entry_price"; "stop_loss"; "take_profit";
         "leverage"; "expected_return"; "risk_reward_ratio"; "time_horizon";
         "strategy_basis"; "is_primary_trade"; "trade_label"; "bybit_settings"] /\
      option_map keys (get "bybit_settings" v)
      = Some ["symbol"; "side"; "orderType"; "qty"; "leverage"; "stopLoss"; "takeProfit";
              "timeInForce"; "marginMode"; "risk_management"; "execution_notes"] /\
      option_map keys (get_path ["bybit_settings"; "risk_management"] v)
      = Some ["risk_amount_usd"; "risk_percentage"; "position_value_usd";
              "margin_required_usd"] /\
      get_path ["bybit_settings"; "execution_notes"] v = Some execution_notes.
Proof.
  destruct (run_ok rs WB g0) as (signals & H & L & N).
  exists signals. rewrite H. split; [reflexivity|].
  intros n v Hn. destruct (N n v Hn) as (symbol & base & Hb & Hp).
  signal_of Hp. subst v.
  rewrite get_execution_notes.
  pose proof (signal_keys (Z.of_nat n) symbol
                (drawn_action rs (Z.of_nat n) (state_at rs n g0))) as K.
  repeat split; apply K.
Qed.

End Shape.

(** *** The rounded confidence *)

Lemma rounded_confidence c :
  PrimFloat.leb (float_of_int 85) c = true ->
  PrimFloat.leb c (float_of_int 98) = true ->
  PrimFloat.leb (float_of_int 85) (round_ndigits c 2) = true /\
  PrimFloat.leb (round_ndigits c 2) (float_of_int 98) = true.
Proof.
  intros H1 H2.
  destruct (between_finite (float_of_int 85) (float_of_int 98) c) as [Fc [L H]];
    try assumption; try reflexivity.
  assert (F85 : finite (float_of_int 85)) by reflexivity.
  assert (F98 : finite (float_of_int 98)) by reflexivity.
  assert (A : 0 < fval (float_of_int 85)) by (apply Zltb_true; vm_compute; reflexivity).
  assert (B : fval (float_of_int 98) < 2 ^ 2096) by (apply Zltb_true; vm_compute; reflexivity).
  assert (E85 : round_val 2 (fval (float_of_int 85)) = fval (float_of_int 85))
    by (vm_compute; reflexivity).
  assert (E98 : round_val 2 (fval (float_of_int 98)) = fval (float_of_int 98))
    by (vm_compute; reflexivity).
  assert (R : 0 < fval c < 2 ^ 2096).
  { split; [eapply Z.lt_le_trans; [exact A|exact L]|eapply Z.le_lt_trans; [exact H|exact B]]. }
  destruct (round_ndigits_fval c 2 Fc R) as [F V].
  pose proof (round_val_mono 2 _ _ (Z.lt_le_incl _ _ A) L) as M1.
  pose proof (round_val_mono 2 (fval c) _ (Z.lt_le_incl _ _ (proj1 R)) H) as M2.
  rewrite E85 in M1. rewrite E98 in M2. rewrite <- V in M1, M2.
  rewrite !leb_fval by assumption.
  split; apply Z.leb_le; assumption.
Qed.

(** *** The band of the entry price *)

Lemma price_band b u :
  base_ok b = true ->
  PrimFloat.leb (- 0.02) u = true -> PrimFloat.leb u 0.02 = true ->
  let r4 x := round_ndigits x 4 in
  let price := (b * (float_of_int 1 + u))%float in
  PrimFloat.leb (r4 (b * (float_of_int 1 + - 0.02))%float) (r4 price) = true /\
  PrimFloat.leb (r4 price) (r4 (b * (float_of_int 1 + 0.02))%float) = true.
Proof.
  intros Hok Hu1 Hu2 r4 price.
  destruct (one_plus_range u Hu1 Hu2) as [Fw Hw].
  destruct one_plus_scaled as (Elo & Ehi & Blo).
  pose proof shift_pos as P.
  rewrite Elo, Ehi in Hw. destruct Hw as [Hw1 Hw2].
  destruct (fval_multiple (float_of_int 1 + u) shift Fw ltac:(discriminate)) as [w1 V1].
  { eapply Z.le_trans; [|exact Hw1].
    rewrite (Z.add_comm shift 53), Z.pow_add_r by discriminate.
    apply Z.mul_le_mono_nonneg_r; [apply Z.lt_le_incl; exact P|exact Blo]. }
  rewrite V1 in Hw1, Hw2.
  apply Z.mul_le_mono_pos_r in Hw1; [|exact P].
  apply Z.mul_le_mono_pos_r in Hw2; [|exact P].
  assert (Pslo : 0 < s_lo) by (eapply Z.lt_le_trans; [|exact Blo]; reflexivity).
  assert (Vlo : fval (float_of_int 1 + - 0.02) = s_lo * 2 ^ shift) by (vm_compute; reflexivity).
  assert (Vhi : fval (float_of_int 1 + 0.02) = s_hi * 2 ^ shift) by (vm_compute; reflexivity).
  assert (Hlh : s_lo <= s_hi) by (eapply Z.le_trans; eassumption).
  clear Elo Ehi Blo.
  unfold base_ok in Hok. cbv zeta in Hok.
  set (wb := sval b) in *.
  set (wl := smul wb s_lo) in *.
  set (wh := smul wb s_hi) in *.
  repeat (apply andb_prop in Hok; destruct Hok as [Hok ?]).
  clear H H0 H1 H2 H3.
  destruct (scaled_mul b (float_of_int 1 + u) w1 s_lo s_hi Hok V1 (conj Hw1 Hw2) Pslo H6 H5)
    as (Fp & _ & Vp & _ & Hp).
  destruct (scaled_mul b (float_of_int 1 + - 0.02) s_lo s_lo s_hi Hok Vlo
              (conj (Z.le_refl _) Hlh) Pslo H6 H5) as (Fl & _ & Vl & _ & _).
  destruct (scaled_mul b (float_of_int 1 + 0.02) s_hi s_lo s_hi Hok Vhi
              (conj Hlh (Z.le_refl _)) Pslo H6 H5) as (Fh & _ & Vh & _ & _).
  fold price in Fp, Vp. fold wb wl wh in Hp, Vl, Vh.
  destruct Hp as [Hp1 Hp2].
  assert (Hwlh : wl <= wh) by (eapply Z.le_trans; eassumption).
  pose proof (roundable_pos _ _ H4) as Pl.
  destruct (scaled_round price _ wl wh Fp Vp (conj Hp1 Hp2) H4) as [Fr Vr].
  destruct (scaled_round _ wl wl wh Fl Vl (conj (Z.le_refl _) Hwlh) H4) as [Frl Vrl].
  destruct (scaled_round _ wh wl wh Fh Vh (conj Hwlh (Z.le_refl _)) H4) as [Frh Vrh].
  unfold r4. rewrite !leb_fval by assumption. rewrite Vr, Vrl, Vrh.
  split; apply Z.leb_le; apply Z.mul_le_mono_nonneg_r;
    try (apply Z.lt_le_incl; exact P); apply sround_mono;
    try assumption; apply Z.lt_le_incl; try exact Pl.
  eapply Z.lt_le_trans; [exact Pl|exact Hp1].
Qed.

Lemma make_signal_zero_price i symbol c action :
  exists e,
    make_signal i symbol 0 c action = inl e /\
    (e = ZeroDivisionError \/ e = ValueError \/ e = OverflowError).
Proof.
  unfold make_signal.
  destruct (int_of_float (c - float_of_int 85)) as [e|k] eqn:E.
  - exists e. split; [reflexivity|]. unfold int_of_float in E.
    destruct (Prim2SF (c - float_of_int 85)); inversion E; auto.
  - rewrite risk_ratio. cbv zeta. exists ZeroDivisionError. split; [|auto].
    unfold truediv at 1 2 3. change (PrimFloat.eqb 0 0) with true. cbv iota.
    destruct (symbol =? "BTC")%string; [reflexivity|].
    destruct (symbol =? "ETH")%string; reflexivity.
Qed.

Lemma first_iteration {G} (rs : source G) symbol base g :
  getitem base_prices symbol = inr base ->
  iteration rs 0 symbol g
  = (make_signal 0 symbol (price_of rs base g) (confidence_draw rs g) "SELL",
     after_confidence rs g).
Proof.
  intros Hbase.
  unfold iteration, bind at 1. unfold lift at 1. rewrite Hbase.
  unfold bind at 1. unfold draw at 1.
  rewrite (surjective_pairing (uniform rs (- 0.02) 0.02 g)).
  fold (price_draw rs g) (after_price rs g).
  unfold bind at 1. unfold draw at 1.
  rewrite (surjective_pairing (uniform rs (float_of_int 85) (float_of_int 98) (after_price rs g))).
  fold (confidence_draw rs g) (after_confidence rs g).
  fold (price_of rs base g).
  unfold bind, lift, ret. cbn [Z.eqb].
  destruct (make_signal 0 symbol (price_of rs base g) (confidence_draw rs g) "SELL");
    reflexivity.
Qed.

(** X7. A source that draws -1.0 for the first price makes the first price 0.0:
    the generator raises in the first iteration, and the handler answers the
    empty list and logs the exception, the generator being left after the
    confidence draw. *)
Theorem handler_catches_zero_price {G : Type} (rs : source G) (g : G) :
  price_draw rs g = (- 1)%float ->
  exists e,
    generate_mock_signals rs g = (inl e, after_confidence rs g) /\
    (e = ZeroDivisionError \/ e = ValueError \/ e = OverflowError) /\
    get_trading_signals rs g
    = ({| json_body := [] |},
       [{| log_message := "Error getting signals: "; log_exception := e |}],
       after_confidence rs g).
Proof.
  intros Hd.
  assert (P0 : price_of rs (Float 0.55) g = 0%float).
  { unfold price_of. rewrite Hd. vm_compute. reflexivity. }
  destruct (make_signal_zero_price 0 "ADA" (confidence_draw rs g) "SELL") as (e & He & Hc).
  assert (Hg : generate_mock_signals rs g = (inl e, after_confidence rs g)).
  { unfold generate_mock_signals, symbols. cbn [for_each]. unfold bind at 1.
    rewrite (first_iteration rs "ADA" (Float 0.55) g eq_refl), P0, He. reflexivity. }
  exists e. split; [exact Hg|]. split; [exact Hc|].
  unfold get_trading_signals. rewrite Hg. reflexivity.
Qed.

Lemma counted_well_behaved {G} (rs : source G) :
  well_behaved rs -> well_behaved (counted rs).
Proof.
  intros [H1 H2 H3]. split.
  - intros s. apply (H1 (fst s)).
  - intros s. apply (H2 (fst s)).
  - intros s. apply (H3 (fst s)).
Qed.

Section Values.

Context {G : Type} (rs : source G).
Hypothesis WB : well_behaved rs.

(** X3. The confidence of a signal, rounded to two places, is between 85.0 and
    98.0. *)
Theorem confidence_between_85_and_98 (g0 : G) :
  exists signals,
    fst (generate_mock_signals rs g0) = inr signals /\
    forall n v, nth_error signals n = Some v ->
      exists confidence,
        get "confidence" v = Some (VFloat confidence) /\
        PrimFloat.leb (float_of_int 85) confidence = true /\
        PrimFloat.leb confidence (float_of_int 98) = true.
Proof.
  destruct (run_ok rs WB g0) as (signals & H & L & N).
  exists signals. rewrite H. split; [reflexivity|].
  intros n v Hn. destruct (N n v Hn) as (symbol & base & Hb & Hp).
  signal_of Hp. subst v.
  destruct (confidence_in_range rs WB (after_price rs (state_at rs n g0))) as [C1 C2].
  fold (confidence_draw rs (state_at rs n g0)) in C1, C2.
  destruct (rounded_confidence _ C1 C2) as [R1 R2].
  eexists. rewrite get_confidence. split; [reflexivity|]. split; assumption.
Qed.

(** X4. The entry price of a signal lies between the entry prices of the two
    extreme draws, -0.02 and 0.02, for its base price. *)
Theorem entry_price_in_band (g0 : G) :
  exists signals,
    fst (generate_mock_signals rs g0) = inr signals /\
    forall n v, nth_error signals n = Some v ->
      exists symbol base entry,
        nth_error base_prices n = Some (symbol, base) /\
        get "entry_price" v = Some (VFloat entry) /\
        PrimFloat.leb (round_ndigits (as_float base * (float_of_int 1 + - 0.02)) 4) entry
        = true /\
        PrimFloat.leb entry (round_ndigits (as_float base * (float_of_int 1 + 0.02)) 4)
        = true.
Proof.
  destruct (run_ok rs WB g0) as (signals & H & L & N).
  exists signals. rewrite H. split; [reflexivity|].
  intros n v Hn. destruct (N n v Hn) as (symbol & base & Hb & Hp).
  signal_of Hp. subst v.
  pose proof (table_entry _ _ _ Hb) as K.
  destruct (price_in_range rs WB (state_at rs n g0)) as [U1 U2].
  destruct (price_band (as_float base) _ K U1 U2) as [B1 B2].
  exists symbol, base. eexists. rewrite get_entry_price.
  split; [exact Hb|]. split; [reflexivity|]. split; assumption.
Qed.

(** X5. The position value in the risk management block is 250 times the
    leverage, printed with one decimal. *)
Theorem position_value_of_leverage (g0 : G) :
  exists signals,
    fst (generate_mock_signals rs g0) = inr signals /\
    forall n v, nth_error signals n = Some v ->
      exists leverage,
        get "leverage" v = Some (VInt leverage) /\
        8 <= leverage <= 15 /\
        get_path ["bybit_settings"; "risk_management"; "position_value_usd"] v
        = Some (VStr (str_of_int (250 * leverage) ++ ".0")).
Proof.
  destruct (run_ok rs WB g0) as (signals & H & L & N).
  exists signals. rewrite H. split; [reflexivity|].
  intros n v Hn. destruct (N n v Hn) as (symbol & base & Hb & Hp).
  signal_of Hp. subst v.
  destruct (confidence_in_range rs WB (after_price rs (state_at rs n g0))) as [C1 C2].
  fold (confidence_draw rs (state_at rs n g0)) in C1, C2.
  destruct (truncated_confidence _ C1 C2) as (k' & I & _ & B).
  assert (k' = k) by congruence. subst k'.
  exists (Z.min (8 + k) 15). rewrite get_leverage, get_position_value_usd.
  split; [reflexivity|]. split; [lia|].
  assert (Z.min (8 + k) 15 = 8 \/ Z.min (8 + k) 15 = 9 \/ Z.min (8 + k) 15 = 10 \/
          Z.min (8 + k) 15 = 11 \/ Z.min (8 + k) 15 = 12 \/ Z.min (8 + k) 15 = 13 \/
          Z.min (8 + k) 15 = 14 \/ Z.min (8 + k) 15 = 15) as C by lia.
  clear - C.
  repeat (destruct C as [-> | C]; [vm_compute; reflexivity|]).
  rewrite C. vm_compute. reflexivity.
Qed.

(** X6. With a source that keeps the promises of the library the handler
    answers the six signals of the generator and logs nothing; the
    generator is left as the six iterations leave it. *)
Theorem handler_returns_six_signals (g : G) :
  exists signals,
    fst (generate_mock_signals rs g) = inr signals /\
    List.length signals = 6%nat /\
    get_trading_signals rs g = ({| json_body := signals |}, [], state_at rs 6 g).
Proof.
  destruct (run_ok rs WB g) as (signals & H & L & _).
  exists signals. unfold get_trading_signals. rewrite H.
  split; [reflexivity|]. split; [exact L|reflexivity].
Qed.

(** X8. A run makes twelve calls of [random.uniform], two in each iteration, and
    five of [random.choice], one in each iteration but the first. *)
Theorem draws_of_a_run (g0 : G) :
  exists signals,
    generate_mock_signals (counted rs) (g0, (0, 0)%nat)
    = (inr signals, (state_at rs 6 g0, (12, 5)%nat)).
Proof.
  destruct (generate_ok (counted rs) (counted_well_behaved rs WB) (g0, (0, 0)%nat))
    as (signals & H & _).
  exists signals. rewrite H. reflexivity.
Qed.

End Values.

Lemma execution_block_mirrors_signal_witness :
  well_behaved tape /\
  (exists signals,
    fst (generate_mock_signals tape seed_a) = inr signals /\
    forall n v, nth_error signals n = Some v ->
      exists action leverage stop target,
        get "action" v = Some (VStr action) /\
        get_path ["bybit_settings"; "side"] v = Some (VStr action) /\
        get "leverage" v = Some (VInt leverage) /\
        get_path ["bybit_settings"; "leverage"] v = Some (VStr (str_of_int leverage)) /\
        get "stop_loss" v = Some (VFloat stop) /\
        get_path ["bybit_settings"; "stopLoss"] v = Some (VStr (str_of_float stop)) /\
        get "take_profit" v = Some (VFloat target) /\
        get_path ["bybit_settings"; "takeProfit"] v = Some (VStr (str_of_float target))).
Proof.
  split; [exact tape_well_behaved|].
  exact (execution_block_mirrors_signal tape tape_well_behaved seed_a).
Defined.

Lemma signal_shape_witness :
  well_behaved tape /\
  (exists signals,
    fst (generate_mock_signals tape seed_a) = inr signals /\
    forall n v, nth_error signals n = Some v ->
      keys v
      = ["symbol"; "action"; "confidence"; "entry_price"; "stop_loss"; "take_profit";
         "leverage"; "expected_return"; "risk_reward_ratio"; "time_horizon";
         "strategy_basis"; "is_primary_trade"; "trade_label"; "bybit_settings"] /\
      option_map keys (get "bybit_settings" v)
      = Some ["symbol"; "side"; "orderType"; "qty"; "leverage"; "stopLoss"; "takeProfit";
              "timeInForce"; "marginMode"; "risk_management"; "execution_notes"] /\
      option_map keys (get_path ["bybit_settings"; "risk_management"] v)
      = Some ["risk_amount_usd"; "risk_percentage"; "position_value_usd";
              "margin_required_usd"] /\
      get_path ["bybit_settings"; "execution_notes"] v = Some execution_notes).
Proof.
  split; [exact tape_well_behaved|].
  exact (signal_shape tape tape_well_behaved seed_a).
Defined.

Lemma confidence_between_85_and_98_witness :
  well_behaved tape /\
  (exists signals,
    fst (generate_mock_signals tape seed_a) = inr signals /\
    forall n v, nth_error signals n = Some v ->
      exists confidence,
        get "confidence" v = Some (VFloat confidence) /\
        PrimFloat.leb (float_of_int 85) confidence = true /\
        PrimFloat.leb confidence (float_of_int 98) = true).
Proof.
  split; [exact tape_well_behaved|].
  exact (confidence_between_85_and_98 tape tape_well_behaved seed_a).
Defined.

Lemma entry_price_in_band_witness :
  well_behaved tape /\
  (exists signals,
    fst (generate_mock_signals tape seed_a) = inr signals /\
    forall n v, nth_error signals n = Some v ->
      exists symbol base entry,
        nth_error base_prices n = Some (symbol, base) /\
        get "entry_price" v = Some (VFloat entry) /\
        PrimFloat.leb (round_ndigits (as_float base * (float_of_int 1 + - 0.02)) 4) entry
        = true /\
        PrimFloat.leb entry (round_ndigits (as_float base * (float_of_int 1 + 0.02)) 4)
        = true).
Proof.
  split; [exact tape_well_behaved|].
  exact (entry_price_in_band tape tape_well_behaved seed_a).
Defined.

Lemma position_value_of_leverage_witness :
  well_behaved tape /\
  (exists signals,
    fst (generate_mock_signals tape seed_a) = inr signals /\
    forall n v, nth_error signals n = Some v ->
      exists leverage,
        get "leverage" v = Some (VInt leverage) /\
        8 <= leverage <= 15 /\
        get_path ["bybit_settings"; "risk_management"; "position_value_usd"] v
        = Some (VStr (str_of_int (250 * leverage) ++ ".0"))).
Proof.
  split; [exact tape_well_behaved|].
  exact (position_value_of_leverage tape tape_well_behaved seed_a).
Defined.

Lemma handler_returns_six_signals_witness :
  well_behaved tape /\
  (exists signals,
    fst (generate_mock_signals tape seed_a) = inr signals /\
    List.length signals = 6%nat /\
    get_trading_signals tape seed_a = ({| json_body := signals |}, [], state_at tape 6 seed_a)).
Proof.
  split; [exact tape_well_behaved|].
  exact (handler_returns_six_signals tape tape_well_behaved seed_a).
Defined.

Lemma draws_of_a_run_witness :
  well_behaved tape /\
  (exists signals,
    generate_mock_signals (counted tape) (seed_a, (0, 0)%nat)
    = (inr signals, (state_at tape 6 seed_a, (12, 5)%nat))).
Proof.
  split; [exact tape_well_behaved|].
  exact (draws_of_a_run tape tape_well_behaved seed_a).
Defined.

Lemma handler_catches_zero_price_witness :
  price_draw broken tt = (- 1)%float /\
  (exists e,
    generate_mock_signals broken tt = (inl e, after_confidence broken tt) /\
    (e = ZeroDivisionError \/ e = ValueError \/ e = OverflowError) /\
    get_trading_signals broken tt
    = ({| json_body := [] |},
       [{| log_message := "Error getting signals: "; log_exception := e |}],
       after_confidence broken tt)).
Proof.
  split; [reflexivity|].
  exact (handler_catches_zero_price broken tt eq_refl).
Defined.

End RoutesMore.
